(** * Reference expansion for OpenAPI documents

    A shallow embedding of [scripts/expand-refs.py]: the JSON-pointer
    resolver [resolve_ref_pointer], the recursive expander [expand_refs]
    and the pruner [remove_unused_components], with the properties of the
    specification proved about them.

    Documents are the trees that [json.load] builds: [None], booleans,
    integers, floats, strings, lists, and dicts with string keys kept in
    insertion order.  A float is only ever passed through or printed, so
    it is carried by its printed form.  A string is the sequence of its
    bytes in UTF-8, and [repr], [int], [len] and [isdigit] are those of
    Python on ASCII text: on other text Python counts code points, reads
    the decimal digits and blanks of every script, and escapes the code
    points that cannot be printed, which the bytes do not tell.

    The functions are given twice.  On trees ([expand_refs]), where a
    document is a value and every property of the result is stated; and
    on a store of objects (module [Store]), where a dict or a list has a
    location and can be changed in place, for the property that the root
    document is left as it was.

    Left out: the limit of the interpreter on the depth of recursion and
    on the number of digits that [int] reads, and the printed progress
    lines. *)

From Stdlib Require Import ZArith Lia Ascii String.
From stdpp Require Import gmap strings list pretty.

Local Open Scope Z_scope.

(** ** Documents *)

#[warnings="-register-all"]
Inductive json : Type :=
| JNull
| JBool (b : bool)
| JInt (n : Z)
| JFloat (printed : string)
| JStr (s : string)
| JList (xs : list json)
| JDict (items : list (string * json)).

(** Exceptions raised while a pointer is resolved; [str_exc] is Python's
    [str(e)]. *)
Inductive exception : Type :=
| ValueError (msg : string)
| KeyError (key : string)
| IndexError (msg : string)
| AttributeError (msg : string).

Inductive result (A : Type) : Type :=
| Ok (x : A)
| Raise (e : exception).
Arguments Ok {A} x.
Arguments Raise {A} e.

(** ** Python strings *)

Module PyStr.

Definition squote : ascii := ascii_of_nat 39.
Definition dquote : ascii := ascii_of_nat 34.
Definition backslash : ascii := ascii_of_nat 92.

(** [s[n:]] *)
Fixpoint drop (n : nat) (s : string) : string :=
  match n, s with
  | O, _ => s
  | S _, EmptyString => EmptyString
  | S k, String _ r => drop k r
  end.

(** [s.startswith(p)] *)
Fixpoint startswith (s p : string) {struct p} : bool :=
  match p, s with
  | EmptyString, _ => true
  | String _ _, EmptyString => false
  | String a p', String b s' => Ascii.eqb a b && startswith s' p'
  end.

(** [s.split(sep)] for a one-character separator: never the empty list. *)
Fixpoint split (sep : ascii) (s : string) : list string :=
  match s with
  | EmptyString => [EmptyString]
  | String c r =>
      if Ascii.eqb c sep then EmptyString :: split sep r
      else match split sep r with
           | h :: t => String c h :: t
           | [] => [String c EmptyString]
           end
  end.

(** [s.replace(old, new)] for a non-empty [old]: occurrences are found from
    the left and do not overlap; [skip] counts the characters of a match
    still to be passed over. *)
Fixpoint replace_from (old new : string) (skip : nat) (s : string) : string :=
  match s with
  | EmptyString => EmptyString
  | String c r =>
      match skip with
      | S k => replace_from old new k r
      | O =>
          if startswith s old
          then new +:+ replace_from old new (String.length old - 1) r
          else String c (replace_from old new 0 r)
      end
  end.

Definition replace (old new s : string) : string := replace_from old new 0 s.

Fixpoint contains (c : ascii) (s : string) : bool :=
  match s with
  | EmptyString => false
  | String d r => Ascii.eqb c d || contains c r
  end.

Definition hex_digit (n : nat) : ascii :=
  match String.get n "0123456789abcdef" with
  | Some c => c
  | None => "0"%char
  end.

(** One character of [repr(s)] inside quotes [q].  Code points above 127
    are left as they are, as Python does for printable ones. *)
Definition repr_char (q c : ascii) : string :=
  let n := nat_of_ascii c in
  if Ascii.eqb c backslash then String backslash (String backslash EmptyString)
  else if Ascii.eqb c q then String backslash (String q EmptyString)
  else if (n =? 9)%nat then String backslash "t"
  else if (n =? 10)%nat then String backslash "n"
  else if (n =? 13)%nat then String backslash "r"
  else if (n <? 32)%nat || (n =? 127)%nat
       then String backslash
              (String "x" (String (hex_digit (n / 16)) (String (hex_digit (n mod 16)) EmptyString)))
  else String c EmptyString.

Fixpoint repr_chars (q : ascii) (s : string) : string :=
  match s with
  | EmptyString => EmptyString
  | String c r => repr_char q c +:+ repr_chars q r
  end.

(** [repr(s)]: single quotes, unless the string holds a single quote and
    no double quote. *)
Definition repr (s : string) : string :=
  let q := if contains squote s && negb (contains dquote s) then dquote else squote in
  String q (repr_chars q s +:+ String q EmptyString).

(** [sep.join(parts)] *)
Fixpoint join (sep : string) (parts : list string) : string :=
  match parts with
  | [] => EmptyString
  | [p] => p
  | p :: rest => p +:+ sep +:+ join sep rest
  end.

(** Whitespace that [int()] strips from ASCII text: tab, line feed,
    vertical tab, form feed, carriage return and space. *)
Definition is_space (c : ascii) : bool :=
  let n := nat_of_ascii c in
  ((9 <=? n) && (n <=? 13))%nat || (n =? 32)%nat.

(** The value of a decimal digit of ASCII. *)
Definition digit_value (c : ascii) : option Z :=
  let n := nat_of_ascii c in
  if ((48 <=? n) && (n <=? 57))%nat then Some (Z.of_nat (n - 48)) else None.

Fixpoint lstrip (s : string) : string :=
  match s with
  | String c r => if is_space c then lstrip r else s
  | EmptyString => EmptyString
  end.

Definition rstrip (s : string) : string :=
  String.rev (lstrip (String.rev s)).

(** Digits with single underscores between them: [acc] is the value read
    so far and [after_digit] says whether the last character was a digit. *)
Fixpoint digits (acc : Z) (after_digit : bool) (s : string) : option Z :=
  match s with
  | EmptyString => if after_digit then Some acc else None
  | String c r =>
      match digit_value c with
      | Some d => digits (10 * acc + d) true r
      | None =>
          if Ascii.eqb c "_" && after_digit then
            match r with
            | EmptyString => None
            | String c' _ =>
                match digit_value c' with
                | Some _ => digits acc false r
                | None => None
                end
            end
          else None
      end
  end.

(** [s[:n]] *)
Fixpoint take (n : nat) (s : string) : string :=
  match n, s with
  | S k, String c r => String c (take k r)
  | _, _ => EmptyString
  end.

(** [int(s)] in base ten.  The message of the error shows at most 200
    characters of [repr(s)]. *)
Definition int (s : string) : result Z :=
  let body := rstrip (lstrip s) in
  let parsed :=
    match body with
    | String "-" r => Z.opp <$> digits 0 false r
    | String "+" r => digits 0 false r
    | _ => digits 0 false body
    end in
  match parsed with
  | Some n => Ok n
  | None =>
      Raise (ValueError ("invalid literal for int() with base 10: " +:+ take 200 (repr s)))
  end.

End PyStr.


(** ** Dicts in insertion order *)

Module Dict.

Definition t (A : Type) : Type := list (string * A).

Section ops.
Context {A : Type}.

(** [d[k]], [None] for a missing key *)
Fixpoint get (k : string) (d : t A) : option A :=
  match d with
  | [] => None
  | (k', v) :: r => if String.eqb k k' then Some v else get k r
  end.

(** [k in d] *)
Definition mem (k : string) (d : t A) : bool :=
  match get k d with Some _ => true | None => false end.

(** [d[k] = v]: a key already there keeps its place, a new one goes last. *)
Fixpoint set (k : string) (v : A) (d : t A) : t A :=
  match d with
  | [] => [(k, v)]
  | (k', v') :: r => if String.eqb k k' then (k, v) :: r else (k', v') :: set k v r
  end.

(** The dict built by inserting the pairs from left to right: a dict
    display or comprehension. *)
Definition of_items (l : list (string * A)) : t A :=
  fold_left (fun d kv => set kv.1 kv.2 d) l [].

(** [{**a, **b}] *)
Definition merge (a b : t A) : t A := of_items (a ++ b).

(** [del d[k]] for a key that is there *)
Fixpoint remove (k : string) (d : t A) : t A :=
  match d with
  | [] => []
  | (k', v) :: r => if String.eqb k k' then r else (k', v) :: remove k r
  end.

Definition keys (d : t A) : list string := d.*1.

End ops.

End Dict.

(** A document is well formed when no dict has a key twice, as in every
    dict Python can build. *)
Fixpoint json_wf (j : json) : bool :=
  match j with
  | JList xs => forallb json_wf xs
  | JDict items =>
      bool_decide (NoDup (Dict.keys items)) && forallb (fun kv => json_wf kv.2) items
  | _ => true
  end.

(** ** Printing values *)

(** [repr(j)] *)
Fixpoint py_repr (j : json) : string :=
  match j with
  | JNull => "None"
  | JBool true => "True"
  | JBool false => "False"
  | JInt n => pretty n
  | JFloat printed => printed
  | JStr s => PyStr.repr s
  | JList xs => "[" +:+ PyStr.join ", " (map py_repr xs) +:+ "]"
  | JDict items =>
      "{" +:+ PyStr.join ", " (map (fun kv => PyStr.repr kv.1 +:+ ": " +:+ py_repr kv.2) items) +:+ "}"
  end.

(** [str(j)], what an f-string puts in place of [{j}] *)
Definition py_str (j : json) : string :=
  match j with
  | JStr s => s
  | _ => py_repr j
  end.

(** [type(j).__name__] *)
Definition type_name (j : json) : string :=
  match j with
  | JNull => "NoneType"
  | JBool _ => "bool"
  | JInt _ => "int"
  | JFloat _ => "float"
  | JStr _ => "str"
  | JList _ => "list"
  | JDict _ => "dict"
  end.

(** [str(e)]: the message, but the [repr] of the key for a [KeyError]. *)
Definition str_exc (e : exception) : string :=
  match e with
  | ValueError msg | IndexError msg | AttributeError msg => msg
  | KeyError key => PyStr.repr key
  end.

(** ** The pointer resolver *)

(** The largest list index of a 64-bit interpreter. *)
Definition ssize_max : Z := 2 ^ 63 - 1.

(** [xs[i]]: a negative index counts from the end. *)
Definition list_index {A : Type} (xs : list A) (i : Z) : result A :=
  if (i <? - ssize_max - 1) || (ssize_max <? i)
  then Raise (IndexError "cannot fit 'int' into an index-sized integer")
  else
    let n := Z.of_nat (length xs) in
    let j := if i <? 0 then i + n else i in
    if (j <? 0) || (n <=? j) then Raise (IndexError "list index out of range")
    else match xs !! Z.to_nat j with
         | Some x => Ok x
         | None => Raise (IndexError "list index out of range")
         end.

(** [part.replace('~1', '/').replace('~0', '~')] *)
Definition unescape (part : string) : string :=
  PyStr.replace "~0" "~" (PyStr.replace "~1" "/" part).

(** The loop [for part in parts] of [resolve_ref_pointer], from the node
    [current]. *)
Fixpoint walk_parts (ref_path : string) (parts : list string) (current : json)
  : result json :=
  match parts with
  | [] => Ok current
  | part :: rest =>
      let part := unescape part in
      match current with
      | JDict items =>
          match Dict.get part items with
          | Some v => walk_parts ref_path rest v
          | None => Raise (KeyError part)
          end
      | JList xs =>
          match PyStr.int part with
          | Ok i =>
              match list_index xs i with
              | Ok v => walk_parts ref_path rest v
              | Raise e => Raise e
              end
          | Raise e => Raise e
          end
      | _ => Raise (ValueError ("Cannot resolve path " +:+ ref_path))
      end
  end.

(** [resolve_ref_pointer(ref_path, root_doc)].  The value under ["$ref"]
    need not be a string: on anything else [ref_path.startswith] raises. *)
Definition resolve_ref_pointer (ref_path : json) (root_doc : json) : result json :=
  match ref_path with
  | JStr s =>
      if negb (PyStr.startswith s "#/")
      then Raise (ValueError ("External references not supported: " +:+ s))
      else walk_parts s (PyStr.split "/" (PyStr.drop 2 s)) root_doc
  | _ =>
      Raise (AttributeError
               ("'" +:+ type_name ref_path +:+ "' object has no attribute 'startswith'"))
  end.

(** The ways one step of the walk fails at the node [current]: a key that
    is missing, an index that is not a number or is out of range, or a
    node that is neither a dict nor a list. *)
Definition step_fails (current : json) (part : string) : Prop :=
  match current with
  | JDict items => Dict.get part items = None
  | JList xs =>
      match PyStr.int part with
      | Ok i => i < - Z.of_nat (length xs) \/ Z.of_nat (length xs) <= i
      | Raise _ => True
      end
  | _ => True
  end.

(** ** The expander *)

Definition MAX_DEPTH : Z := 10.

(** [{"type": "object", "description": description}] *)
Definition placeholder (description : string) : json :=
  JDict [("type", JStr "object"); ("description", JStr description)].

(** [f"Max expansion depth reached at {path}"] *)
Definition max_depth_description (path : string) : string :=
  "Max expansion depth reached at " +:+ path.

(** [f"Circular reference: {ref_path}"] *)
Definition circular_description (ref_path : json) : string :=
  "Circular reference: " +:+ py_str ref_path.

(** [f"Error resolving {ref_path}: {str(e)}"] *)
Definition error_description (ref_path : json) (e : exception) : string :=
  "Error resolving " +:+ py_str ref_path +:+ ": " +:+ str_exc e.

Definition max_depth_placeholder (path : string) : json :=
  placeholder (max_depth_description path).

Definition circular_placeholder (ref_path : json) : json :=
  placeholder (circular_description ref_path).

Definition error_placeholder (ref_path : json) (e : exception) : json :=
  placeholder (error_description ref_path e).

(** [deepcopy(j)]: the tree is rebuilt node by node. *)
Fixpoint deepcopy (j : json) : json :=
  match j with
  | JList xs => JList (map deepcopy xs)
  | JDict items => JDict (map (fun kv => (kv.1, deepcopy kv.2)) items)
  | _ => j
  end.

(** [f"{path}:{ref_path}"] *)
Definition tracking_key (path : string) (ref_path : json) : string :=
  path +:+ ":" +:+ py_str ref_path.

(** [f"{path}->{ref_path}"] *)
Definition ref_location (path : string) (ref_path : json) : string :=
  path +:+ "->" +:+ py_str ref_path.

(** [f"{path}.{key}"] *)
Definition key_location (path key : string) : string :=
  path +:+ "." +:+ key.

(** [f"{path}[{i}]"] *)
Definition index_location (path : string) (i : nat) : string :=
  path +:+ "[" +:+ pretty i +:+ "]".

(** [{k: v for k, v in obj.items() if k != '$ref'}] *)
Definition other_props {A : Type} (obj : Dict.t A) : Dict.t A :=
  Dict.of_items (filter (fun kv => kv.1 ≠ "$ref") obj).

(** The overlay of the sibling keys: only when there are some and the
    target is a dict. *)
Definition merge_props (resolved : json) (props : Dict.t json) : json :=
  match props, resolved with
  | _ :: _, JDict target => JDict (Dict.merge target props)
  | _, _ => resolved
  end.

(** [expand_refs] with [gas] dereferences left before the depth guard
    fires, [MAX_DEPTH + 1 - depth] of them: following a reference spends
    one, walking into a dict or a list spends none and recurses on the
    children.  The set [visited_paths] is handed on by value, as every
    call of the source receives a copy of its own.  Whatever
    [resolve_ref_pointer] raises is caught by the [except] clause, and no
    other statement of the function can raise, so the result is always a
    document. *)
Fixpoint expand_refs_gas (gas : nat) (root_doc : json) (depth : Z) {struct gas}
  : json -> string -> gset string -> json :=
  fix expand (obj : json) (path : string) (visited_paths : gset string)
      {struct obj} : json :=
    if MAX_DEPTH <? depth then max_depth_placeholder path
    else
      match obj with
      | JDict items =>
          match Dict.get "$ref" items with
          | Some ref_path =>
              let key := tracking_key path ref_path in
              if bool_decide (key ∈ visited_paths) then circular_placeholder ref_path
              else
                let visited_paths := {[key]} ∪ visited_paths in
                match resolve_ref_pointer ref_path root_doc with
                | Ok resolved =>
                    let resolved := merge_props (deepcopy resolved) (other_props items) in
                    match gas with
                    | S g =>
                        expand_refs_gas g root_doc (depth + 1) resolved
                          (ref_location path ref_path) visited_paths
                    | O => max_depth_placeholder (ref_location path ref_path)
                    end
                | Raise e => error_placeholder ref_path e
                end
          | None =>
              JDict (Dict.of_items
                ((fix each (l : list (string * json)) : list (string * json) :=
                    match l with
                    | [] => []
                    | (key, value) :: r =>
                        (key, expand value (key_location path key) visited_paths) :: each r
                    end) items))
          end
      | JList xs =>
          JList ((fix each (i : nat) (l : list json) : list json :=
                    match l with
                    | [] => []
                    | item :: r =>
                        expand item (index_location path i) visited_paths :: each (S i) r
                    end) 0%nat xs)
      | _ => obj
      end.

(** [expand_refs(obj, root_doc, path, depth, visited_paths)] *)
Definition expand_refs (obj root_doc : json) (path : string) (depth : Z)
    (visited_paths : gset string) : json :=
  expand_refs_gas (Z.to_nat (MAX_DEPTH + 1 - depth)) root_doc depth obj path visited_paths.

(** [expand_refs(doc, doc)], the call of [process_file], with the defaults
    [path="root"], [depth=0] and a fresh set. *)
Definition expand_document (doc : json) : json :=
  expand_refs doc doc "root" 0 ∅.

(** [remove_unused_components(doc)] on a dict; the print is left out. *)
Definition remove_unused_components (doc : Dict.t json) : Dict.t json :=
  if Dict.mem "components" doc then Dict.remove "components" doc else doc.

(** ** The object store

    The same functions over Python's objects: a dict or a list is an
    object of the store, known by its location, and a value is a scalar
    or the location of an object.  An object is created at a new
    location and changed in place at the location it has.  [None] stands
    for what the model leaves out: a location without object, a value
    that contains itself, or recursion deeper than [fuel]. *)

Module Store.

Abbreviation loc := nat (only parsing).

Inductive value : Type :=
| VNull
| VBool (b : bool)
| VInt (n : Z)
| VFloat (printed : string)
| VStr (s : string)
| VRef (l : loc).

Inductive object : Type :=
| ODict (items : Dict.t value)
| OList (xs : list value).

Abbreviation heap := (list object) (only parsing).

(** A new object, at the next location. *)
Definition alloc (o : object) (h : heap) : value * heap :=
  (VRef (length h), h ++ [o]).

(** [y[k] = v] on the dict at [y], in place *)
Definition setitem (y : loc) (k : string) (v : value) (h : heap) : option heap :=
  match h !! y with
  | Some (ODict items) => Some (<[y := ODict (Dict.set k v items)]> h)
  | _ => None
  end.

(** [y.append(v)] on the list at [y], in place *)
Definition append (y : loc) (v : value) (h : heap) : option heap :=
  match h !! y with
  | Some (OList xs) => Some (<[y := OList (xs ++ [v])]> h)
  | _ => None
  end.

(** [del y[k]] on the dict at [y], in place *)
Definition delitem (y : loc) (k : string) (h : heap) : option heap :=
  match h !! y with
  | Some (ODict items) => Some (<[y := ODict (Dict.remove k items)]> h)
  | _ => None
  end.

(** The document that a value stands for in a store. *)
Fixpoint reify (fuel : nat) (h : heap) (v : value) : option json :=
  match v with
  | VNull => Some JNull
  | VBool b => Some (JBool b)
  | VInt n => Some (JInt n)
  | VFloat printed => Some (JFloat printed)
  | VStr s => Some (JStr s)
  | VRef l =>
      match fuel with
      | O => None
      | S fuel =>
          match h !! l with
          | Some (OList xs) => JList <$> mapM (reify fuel h) xs
          | Some (ODict items) =>
              JDict <$> mapM (fun kv => pair kv.1 <$> reify fuel h kv.2) items
          | None => None
          end
      end
  end.

(** The objects of a document, children before their parent: what
    [json.load] builds. *)
Fixpoint load (j : json) (h : heap) : value * heap :=
  match j with
  | JNull => (VNull, h)
  | JBool b => (VBool b, h)
  | JInt n => (VInt n, h)
  | JFloat printed => (VFloat printed, h)
  | JStr s => (VStr s, h)
  | JList xs =>
      let '(vs, h) :=
        (fix each (l : list json) (h : heap) : list value * heap :=
           match l with
           | [] => ([], h)
           | x :: r =>
               let '(v, h) := load x h in
               let '(vs, h) := each r h in (v :: vs, h)
           end) xs h in
      alloc (OList vs) h
  | JDict items =>
      let '(kvs, h) :=
        (fix each (l : list (string * json)) (h : heap) : Dict.t value * heap :=
           match l with
           | [] => ([], h)
           | (k, x) :: r =>
               let '(v, h) := load x h in
               let '(kvs, h) := each r h in ((k, v) :: kvs, h)
           end) items h in
      alloc (ODict kvs) h
  end.

(** The loop of [resolve_ref_pointer] from the value [current]. *)
Fixpoint walk_parts (ref_path : string) (parts : list string) (current : value) (h : heap)
  : option (result value) :=
  match parts with
  | [] => Some (Ok current)
  | part :: rest =>
      let part := unescape part in
      match current with
      | VRef l =>
          match h !! l with
          | Some (ODict items) =>
              match Dict.get part items with
              | Some v => walk_parts ref_path rest v h
              | None => Some (Raise (KeyError part))
              end
          | Some (OList xs) =>
              match PyStr.int part with
              | Ok i =>
                  match list_index xs i with
                  | Ok v => walk_parts ref_path rest v h
                  | Raise e => Some (Raise e)
                  end
              | Raise e => Some (Raise e)
              end
          | None => None
          end
      | _ => Some (Raise (ValueError ("Cannot resolve path " +:+ ref_path)))
      end
  end.

Definition type_name (v : value) (h : heap) : option string :=
  match v with
  | VNull => Some "NoneType"
  | VBool _ => Some "bool"
  | VInt _ => Some "int"
  | VFloat _ => Some "float"
  | VStr _ => Some "str"
  | VRef l =>
      match h !! l with
      | Some (ODict _) => Some "dict"
      | Some (OList _) => Some "list"
      | None => None
      end
  end.

(** [resolve_ref_pointer(ref_path, root_doc)]: the value found is the one
    in the document, not a copy. *)
Definition resolve_ref_pointer (ref_path root_doc : value) (h : heap)
  : option (result value) :=
  match ref_path with
  | VStr s =>
      if negb (PyStr.startswith s "#/")
      then Some (Raise (ValueError ("External references not supported: " +:+ s)))
      else walk_parts s (PyStr.split "/" (PyStr.drop 2 s)) root_doc h
  | _ =>
      name ← type_name ref_path h;
      Some (Raise (AttributeError
                     ("'" +:+ name +:+ "' object has no attribute 'startswith'")))
  end.

(** The loop of [deepcopy] over the items of a dict: each copy is stored
    in the new dict at [y]. *)
Fixpoint copy_items (copy : value -> gmap loc loc -> heap -> option (value * gmap loc loc * heap))
    (y : loc) (items : Dict.t value) (memo : gmap loc loc) (h : heap)
  : option (gmap loc loc * heap) :=
  match items with
  | [] => Some (memo, h)
  | (k, v) :: r =>
      '(v', memo, h) ← copy v memo h;
      h ← setitem y k v' h;
      copy_items copy y r memo h
  end.

(** The loop of [deepcopy] over the elements of a list. *)
Fixpoint copy_elems (copy : value -> gmap loc loc -> heap -> option (value * gmap loc loc * heap))
    (y : loc) (xs : list value) (memo : gmap loc loc) (h : heap)
  : option (gmap loc loc * heap) :=
  match xs with
  | [] => Some (memo, h)
  | x :: r =>
      '(x', memo, h) ← copy x memo h;
      h ← append y x' h;
      copy_elems copy y r memo h
  end.

(** [deepcopy(x, memo)]: a scalar is returned as it is; an object met
    before is answered from [memo]; otherwise an empty object is
    created, noted in [memo] and filled in place. *)
Fixpoint deepcopy (fuel : nat) (x : value) (memo : gmap loc loc) (h : heap)
  : option (value * gmap loc loc * heap) :=
  match fuel with
  | O => None
  | S fuel =>
      match x with
      | VRef l =>
          match memo !! l with
          | Some y => Some (VRef y, memo, h)
          | None =>
              match h !! l with
              | Some (ODict items) =>
                  let y := length h in
                  '(memo, h) ← copy_items (deepcopy fuel) y items (<[l := y]> memo)
                                 (h ++ [ODict []]);
                  Some (VRef y, memo, h)
              | Some (OList xs) =>
                  let y := length h in
                  '(memo, h) ← copy_elems (deepcopy fuel) y xs (<[l := y]> memo)
                                 (h ++ [OList []]);
                  Some (VRef y, memo, h)
              | None => None
              end
          end
      | _ => Some (x, memo, h)
      end
  end.

(** [{"type": "object", "description": description}], a new dict *)
Definition new_placeholder (description : string) (h : heap) : value * heap :=
  alloc (ODict [("type", VStr "object"); ("description", VStr description)]) h.

(** The overlay [{**resolved, **other_props}], a new dict, when there are
    sibling keys and the target is a dict. *)
Definition merge_props (resolved : value) (props : Dict.t value) (h : heap)
  : option (value * heap) :=
  match props, resolved with
  | _ :: _, VRef l =>
      match h !! l with
      | Some (ODict target) => Some (alloc (ODict (Dict.merge target props)) h)
      | Some (OList _) => Some (resolved, h)
      | None => None
      end
  | _, _ => Some (resolved, h)
  end.

(** The dict comprehension over the items of a dict node. *)
Fixpoint expand_items (expand : value -> string -> heap -> option (value * heap))
    (path : string) (items : Dict.t value) (h : heap) : option (Dict.t value * heap) :=
  match items with
  | [] => Some ([], h)
  | (key, value) :: r =>
      '(v, h) ← expand value (key_location path key) h;
      '(kvs, h) ← expand_items expand path r h;
      Some ((key, v) :: kvs, h)
  end.

(** The list comprehension over the elements of a list node, from the
    index [i]. *)
Fixpoint expand_elems (expand : value -> string -> heap -> option (value * heap))
    (path : string) (i : nat) (xs : list value) (h : heap) : option (list value * heap) :=
  match xs with
  | [] => Some ([], h)
  | item :: r =>
      '(v, h) ← expand item (index_location path i) h;
      '(vs, h) ← expand_elems expand path (S i) r h;
      Some (v :: vs, h)
  end.

(** [expand_refs(obj, root_doc, path, depth, visited_paths)] in the store
    [h]: the value returned and the store after the call. *)
Fixpoint expand_refs (fuel : nat) (obj root_doc : value) (path : string) (depth : Z)
    (visited_paths : gset string) (h : heap) : option (value * heap) :=
  match fuel with
  | O => None
  | S fuel =>
      if MAX_DEPTH <? depth then Some (new_placeholder (max_depth_description path) h)
      else
        match obj with
        | VRef l =>
            match h !! l with
            | Some (ODict items) =>
                match Dict.get "$ref" items with
                | Some ref_value =>
                    ref_path ← reify fuel h ref_value;
                    let key := tracking_key path ref_path in
                    if bool_decide (key ∈ visited_paths)
                    then Some (new_placeholder (circular_description ref_path) h)
                    else
                      let visited_paths := {[key]} ∪ visited_paths in
                      outcome ← resolve_ref_pointer ref_value root_doc h;
                      match outcome with
                      | Ok resolved =>
                          '(resolved, _, h) ← deepcopy fuel resolved ∅ h;
                          let '(_, h) := alloc (ODict (other_props items)) h in
                          '(resolved, h) ← merge_props resolved (other_props items) h;
                          expand_refs fuel resolved root_doc (ref_location path ref_path)
                            (depth + 1) visited_paths h
                      | Raise e => Some (new_placeholder (error_description ref_path e) h)
                      end
                | None =>
                    '(kvs, h) ← expand_items
                                  (fun value path h =>
                                     expand_refs fuel value root_doc path depth visited_paths h)
                                  path items h;
                    Some (alloc (ODict (Dict.of_items kvs)) h)
                end
            | Some (OList xs) =>
                '(vs, h) ← expand_elems
                             (fun item path h =>
                                expand_refs fuel item root_doc path depth visited_paths h)
                             path 0 xs h;
                Some (alloc (OList vs) h)
            | None => None
            end
        | _ => Some (obj, h)
        end
  end.

(** [remove_unused_components(doc)]: the entry is deleted in place. *)
Definition remove_unused_components (doc : value) (h : heap) : option (value * heap) :=
  match doc with
  | VRef l =>
      match h !! l with
      | Some (ODict items) =>
          if Dict.mem "components" items
          then h ← delitem l "components" h; Some (doc, h)
          else Some (doc, h)
      | _ => None
      end
  | _ => None
  end.

(** [expand_refs(doc, doc)] and then [remove_unused_components], as in
    [process_file]. *)
Definition process (fuel : nat) (doc : value) (h : heap) : option (value * heap) :=
  '(expanded, h) ← expand_refs fuel doc doc "root" 0 ∅ h;
  remove_unused_components expanded h.

(** No object below the location [n] differs between [h] and [h']. *)
Definition unchanged_below (n : nat) (h h' : heap) : Prop :=
  (length h <= length h')%nat /\ forall l, (l < n)%nat -> h' !! l = h !! l.

End Store.

(** ** One activation of [expand_refs]

    The body of [expand_refs] up to its recursive calls: what it returns
    when it makes none, and the calls it makes otherwise. *)

Record call : Type := Call {
  c_obj : json;
  c_path : string;
  c_depth : Z;
  c_visited : gset string
}.

Inductive action : Type :=
| Return (v : json)
| Deref (c : call)
| EachItem (kcs : list (string * call))
| EachElem (cs : list call).

Definition body (root_doc : json) (c : call) : action :=
  let '(Call obj path depth visited_paths) := c in
  if MAX_DEPTH <? depth then Return (max_depth_placeholder path)
  else
    match obj with
    | JDict items =>
        match Dict.get "$ref" items with
        | Some ref_path =>
            let key := tracking_key path ref_path in
            if bool_decide (key ∈ visited_paths) then Return (circular_placeholder ref_path)
            else
              let visited_paths := {[key]} ∪ visited_paths in
              match resolve_ref_pointer ref_path root_doc with
              | Ok resolved =>
                  let resolved := merge_props (deepcopy resolved) (other_props items) in
                  Deref (Call resolved (ref_location path ref_path) (depth + 1) visited_paths)
              | Raise e => Return (error_placeholder ref_path e)
              end
        | None =>
            EachItem (map (fun kv => (kv.1, Call kv.2 (key_location path kv.1) depth visited_paths))
                          items)
        end
    | JList xs =>
        EachElem (imap (fun i item => Call item (index_location path i) depth visited_paths) xs)
    | _ => Return obj
    end.

(** The result of an activation from the results of its calls. *)
Definition assemble (rec : call -> json) (a : action) : json :=
  match a with
  | Return v => v
  | Deref c => rec c
  | EachItem kcs => JDict (Dict.of_items (map (fun kc => (kc.1, rec kc.2)) kcs))
  | EachElem cs => JList (map rec cs)
  end.

Definition subcalls (a : action) : list call :=
  match a with
  | Return _ => []
  | Deref c => [c]
  | EachItem kcs => kcs.*2
  | EachElem cs => cs
  end.

(** [calls root c c']: the activation [c] calls [c'] directly. *)
Definition calls (root_doc : json) (c c' : call) : Prop :=
  c' ∈ subcalls (body root_doc c).

Definition run (root_doc : json) (c : call) : json :=
  expand_refs (c_obj c) root_doc (c_path c) (c_depth c) (c_visited c).

(** The first call, [expand_refs(doc, doc)]. *)
Definition first_call (doc : json) : call := Call doc "root" 0 ∅.

(** The activation reached by going [n] times into the first call. *)
Fixpoint follow_first (n : nat) (root_doc : json) (c : call) : option call :=
  match n with
  | O => Some c
  | S m =>
      match subcalls (body root_doc c) with
      | c' :: _ => follow_first m root_doc c'
      | [] => None
      end
  end.

(** [isinstance(obj, dict) and '$ref' in obj] *)
Definition is_ref_node (obj : json) : bool :=
  match obj with
  | JDict items => Dict.mem "$ref" items
  | _ => false
  end.

(** The activations that the first call reaches. *)
Definition reachable (doc : json) (c : call) : Prop :=
  rtc (calls doc) (first_call doc) c.

(** No key of the visited set is longer than the location. *)
Definition visited_within_path (c : call) : Prop :=
  forall key, key ∈ c_visited c -> (String.length key <= String.length (c_path c))%nat.

(** The number of nodes of a document. *)
Fixpoint json_size (j : json) : nat :=
  match j with
  | JList xs => S (list_sum (map json_size xs))
  | JDict items => S (list_sum (map (fun kv => json_size kv.2) items))
  | _ => 1
  end.

(** ** Reference nodes *)

(** [has_ref j]: some dict inside [j], or [j] itself, has the key ["$ref"]. *)
Fixpoint has_ref (j : json) : bool :=
  match j with
  | JList xs => existsb has_ref xs
  | JDict items => Dict.mem "$ref" items || existsb (fun kv => has_ref kv.2) items
  | _ => false
  end.

(** ** Sample documents *)

Module Samples.

Definition schema_ref (name : string) : json :=
  JDict [("$ref", JStr ("#/components/schemas/" +:+ name))].

Definition with_schemas (schemas : Dict.t json) : json :=
  JDict [("components", JDict [("schemas", JDict schemas)])].

(** A document without any reference. *)
Definition plain : json :=
  JDict [("openapi", JStr "3.0.0");
         ("info", JDict [("title", JStr "Pets"); ("version", JInt 1)]);
         ("tags", JList [JStr "a"; JNull; JBool true; JFloat "1.5"; JList []])].

(** The reference node and the document of the sibling-override example. *)
Definition pet_items : Dict.t json :=
  [("$ref", JStr "#/components/schemas/Pet"); ("description", JStr "override")].

Definition pet_ref : json := JDict pet_items.

Definition pet_target : Dict.t json :=
  [("type", JStr "object"); ("description", JStr "original")].

Definition pet_doc : json :=
  JDict [("paths", JDict [("/pets", pet_ref)]);
         ("components", JDict [("schemas", JDict [("Pet", JDict pet_target)])])].

(** One reference to a schema that is not there, beside one that is. *)
Definition missing_doc : json :=
  JDict [("paths", JDict [("bad", schema_ref "DoesNotExist"); ("good", schema_ref "Pet")]);
         ("components", JDict [("schemas", JDict [("Pet", JDict pet_target)])])].

Definition missing_doc_expanded : json :=
  JDict [("paths",
          JDict [("bad", placeholder "Error resolving #/components/schemas/DoesNotExist: 'DoesNotExist'");
                 ("good", JDict pet_target)]);
         ("components", JDict [("schemas", JDict [("Pet", JDict pet_target)])])].

(** The schema [A] that is a reference to itself. *)
Definition self_doc : json := with_schemas [("A", schema_ref "A")].

(** The activation on the schema [A] after its reference was followed
    once. *)
Definition self_second_visit : call :=
  Call (schema_ref "A") "root.components.schemas.A->#/components/schemas/A" 1
       {["root.components.schemas.A:#/components/schemas/A"]}.

(** The name of the [i]-th schema of a chain. *)
Definition chain_name (i : nat) : string := "S" +:+ pretty i.

(** Schemas [first] to [first + n - 1], each a reference to the next. *)
Fixpoint chain_links (n first : nat) : Dict.t json :=
  match n with
  | O => []
  | S m => (chain_name first, schema_ref (chain_name (S first))) :: chain_links m (S first)
  end.

(** A chain of [n] schemas [S1] to [Sn], each a reference to the next, and
    the schema [S(n+1)] at its end. *)
Definition chain_doc (n : nat) : json :=
  with_schemas (chain_links n 1 ++ [(chain_name (S n), JDict [("type", JStr "string")])]).

(** The location after following the references to the schemas [first]
    to [first + n - 1] from [start]. *)
Definition chain_location (start : string) (first n : nat) : string :=
  fold_left (fun path i => path +:+ "->#/components/schemas/" +:+ chain_name i)
            (seq first n) start.

(** The activation that ends the expansion of the schema [S1] of the
    chain of fifteen: from the first call into the dicts ["components"]
    and ["schemas"], into [S1], and then along eleven references. *)
Definition chain_end : option call :=
  follow_first 14 (chain_doc 15) (first_call (chain_doc 15)).

End Samples.

(** ** JSON pointer escaping *)

(** RFC 6901, section 3: in a reference token the character [~] is
    written [~0] and the character [/] is written [~1]. *)
Fixpoint rfc6901_escape (s : string) : string :=
  match s with
  | EmptyString => EmptyString
  | String c r =>
      (if Ascii.eqb c "~" then "~0"
       else if Ascii.eqb c "/" then "~1"
       else String c EmptyString) +:+ rfc6901_escape r
  end.

(** The two replacements in the other order. *)
Definition unescape_swapped (part : string) : string :=
  PyStr.replace "~1" "/" (PyStr.replace "~0" "~" part).

(** ** Sample stores *)

Module StoreSamples.
Import Store.

(** The document of the sibling-override example, loaded in an empty
    store, and the outcome of [expand_refs(doc, doc)] on it. *)
Definition pet_loaded : value * heap := load Samples.pet_doc [].

Definition pet_expanded : value * heap :=
  Eval vm_compute in
    match expand_refs 40 pet_loaded.1 pet_loaded.1 "root" 0 ∅ pet_loaded.2 with
    | Some outcome => outcome
    | None => (VNull, [])
    end.

(** [expand_refs(doc, doc)] on a document loaded in an empty store, read
    back as a document. *)
Definition expand_loaded (fuel : nat) (doc : json) : option json :=
  let '(root, h) := load doc [] in
  '(v, h) ← expand_refs fuel root root "root" 0 ∅ h;
  reify fuel h v.

End StoreSamples.

(** ** Decimal strings *)

(** Every character of [s] satisfies [p]. *)
Fixpoint all_chars (p : ascii -> bool) (s : string) : bool :=
  match s with
  | EmptyString => true
  | String c r => p c && all_chars p r
  end.

Definition is_digit (c : ascii) : bool :=
  match PyStr.digit_value c with Some _ => true | None => false end.

Definition not_space (c : ascii) : bool := negb (PyStr.is_space c).

(** The number that a string of digits denotes after the digits read so
    far denote [acc]. *)
Fixpoint digits_value (acc : Z) (s : string) : Z :=
  match s with
  | EmptyString => acc
  | String c r =>
      digits_value (10 * acc + match PyStr.digit_value c with Some d => d | None => 0 end) r
  end.

(** ** Paths in a document *)

(** One step of a path: into the value of a key, to the element at an
    index, or to the [j]-th element from the end. *)
Inductive segment : Type :=
| Key (k : string)
| Index (i : nat)
| FromEnd (j : nat).

(** The node at the end of a path, when every step exists. *)
Fixpoint node_at (path : list segment) (j : json) : option json :=
  match path with
  | [] => Some j
  | Key k :: rest =>
      match j with
      | JDict items => Dict.get k items ≫= node_at rest
      | _ => None
      end
  | Index i :: rest =>
      match j with
      | JList xs => xs !! i ≫= node_at rest
      | _ => None
      end
  | FromEnd n :: rest =>
      match j with
      | JList xs =>
          if bool_decide (1 <= n <= length xs)%nat
          then xs !! (length xs - n)%nat ≫= node_at rest
          else None
      | _ => None
      end
  end.

(** The segment of a pointer for a step: the escaped key, the index in
    decimal, or the index from the end with a minus sign. *)
Definition segment_token (s : segment) : string :=
  match s with
  | Key k => rfc6901_escape k
  | Index i => pretty i
  | FromEnd j => "-" +:+ pretty j
  end.

(** The pointer [#/t1/t2/...] of a path. *)
Definition pointer_of (path : list segment) : string :=
  "#/" +:+ PyStr.join "/" (map segment_token path).

(** The indices of a step fit the index type of the interpreter. *)
Definition segment_in_range (s : segment) : Prop :=
  match s with
  | Key _ => True
  | Index i => Z.of_nat i <= ssize_max
  | FromEnd j => Z.of_nat j <= ssize_max + 1
  end.

(** [child parent kid]: [kid] is an element of the list [parent] or a
    value of the dict [parent]. *)
Inductive child : json -> json -> Prop :=
| child_elem xs x : x ∈ xs -> child (JList xs) x
| child_value items k v : (k, v) ∈ items -> child (JDict items) v.

(** A document with a key that needs escaping, for the paths above. *)
Definition path_doc : json :=
  JDict [("a/b", JList [JInt 0; JList [JStr "x"; JDict [("~k", JBool true)]]]);
         ("c", JNull)].

Definition path_sample : list segment := [Key "a/b"; Index 1; FromEnd 1; Key "~k"].

(** A reference with a sibling key to a string, and a reference whose
    value is a number. *)
Definition title_doc : json :=
  JDict [("info", JDict [("title", JStr "Pets")]);
         ("name", JDict [("$ref", JStr "#/info/title"); ("description", JStr "ignored")]);
         ("bad", JDict [("$ref", JInt 5)])].

(** ** The whole transformation *)

(** [sub in s] for strings *)
Fixpoint has_substring (sub s : string) : bool :=
  PyStr.startswith s sub ||
  match s with
  | EmptyString => false
  | String _ r => has_substring sub r
  end.

(** What [remove_unused_components] does with any document: the document
    it returns, or the [TypeError] of [in] or of [del] on a value that is
    not a dict. *)
Inductive pruned : Type :=
| Pruned (doc : json)
| PruneTypeError.

(** [remove_unused_components(doc)].  On a list [in] looks for an element
    equal to ['components'] and on a string for the substring; [del] then
    fails on both, and [in] itself fails on the other scalars. *)
Definition prune_document (doc : json) : pruned :=
  match doc with
  | JDict items => Pruned (JDict (remove_unused_components items))
  | JList xs =>
      if existsb (fun x => match x with JStr s => String.eqb s "components" | _ => false end) xs
      then PruneTypeError else Pruned doc
  | JStr s => if has_substring "components" s then PruneTypeError else Pruned doc
  | _ => PruneTypeError
  end.

(** The two steps of [process_file] between loading and saving. *)
Definition process_document (doc : json) : pruned :=
  prune_document (expand_document doc).

(** ** The YAML string representer *)

(** [data.isdigit()] on ASCII text, where [len(data)] is the number of
    bytes. *)
Definition isdigit (data : string) : bool :=
  negb (String.eqb data "") && all_chars is_digit data.

(** [str_representer(dumper, data)]: the style that the scalar is given,
    [Some] of the double quote or [None] for the choice of the dumper. *)
Definition str_representer (data : string) : option ascii :=
  if String.eqb data "" then Some PyStr.dquote
  else if (String.length data =? 3)%nat && isdigit data then Some PyStr.dquote
  else None.

(** The outcome of the two steps of [process_file] on the document of the
    sibling-override example in the store. *)
Definition pet_processed : Store.value * list Store.object :=
  Eval vm_compute in
    match Store.process 40 StoreSamples.pet_loaded.1 StoreSamples.pet_loaded.2 with
    | Some outcome => outcome
    | None => (Store.VNull, [])
    end.

(** ** New objects *)

(** [created_since n h v]: every dict and list of the tree of [v] in the
    store [h] is at a location from [n] on, that is, was created after
    the store had [n] objects. *)
#[warnings="-register-all"]
Inductive created_since (n : nat) (h : list Store.object) : Store.value -> Prop :=
| created_scalar v :
    (forall l, v <> Store.VRef l) -> created_since n h v
| created_dict l items :
    (n <= l)%nat -> h !! l = Some (Store.ODict items) ->
    Forall (fun kv => created_since n h kv.2) items ->
    created_since n h (Store.VRef l)
| created_list l xs :
    (n <= l)%nat -> h !! l = Some (Store.OList xs) ->
    Forall (created_since n h) xs ->
    created_since n h (Store.VRef l).

(** What the loops of [expand_refs] need of the function they call: it
    leaves the objects below [n] as they are and returns a tree created
    since [n], whenever [n] is within the store it starts from. *)
Definition expands_fresh
    (expand : Store.value -> string -> list Store.object
              -> option (Store.value * list Store.object)) : Prop :=
  forall v path h v' h' n,
    expand v path h = Some (v', h') -> (n <= length h)%nat ->
    Store.unchanged_below n h h' /\ created_since n h' v'.

(** ** Induction on documents *)

Lemma json_ind' (P : json -> Prop) :
  P JNull ->
  (forall b, P (JBool b)) ->
  (forall n, P (JInt n)) ->
  (forall f, P (JFloat f)) ->
  (forall s, P (JStr s)) ->
  (forall xs, Forall P xs -> P (JList xs)) ->
  (forall items, Forall (fun kv => P kv.2) items -> P (JDict items)) ->
  forall j, P j.
Proof.
  intros Hnull Hbool Hint Hfloat Hstr Hlist Hdict.
  fix IH 1. intros j. destruct j as [|b|n|f|s|xs|items].
  - exact Hnull.
  - exact (Hbool b).
  - exact (Hint n).
  - exact (Hfloat f).
  - exact (Hstr s).
  - apply Hlist. induction xs as [|x xs IHxs]; constructor; [exact (IH x)|exact IHxs].
  - apply Hdict. induction items as [|[k v] items IHitems]; constructor;
      [exact (IH v)|exact IHitems].
Qed.

(** ** The equation of the source *)

Lemma each_item_map (f : json -> string -> json) (items : list (string * json)) :
  (fix each (l : list (string * json)) : list (string * json) :=
     match l with
     | [] => []
     | (key, value) :: r => (key, f value key) :: each r
     end) items
  = map (fun kv => (kv.1, f kv.2 kv.1)) items.
Proof.
  induction items as [|[k v] items IH]; [reflexivity|].
  rewrite IH. reflexivity.
Qed.

Lemma each_elem_imap (f : json -> nat -> json) (xs : list json) (i : nat) :
  (fix each (i : nat) (l : list json) : list json :=
     match l with
     | [] => []
     | item :: r => f item i :: each (S i) r
     end) i xs
  = imap (fun j item => f item (i + j)%nat) xs.
Proof.
  revert i. induction xs as [|x xs IH]; intros i; [reflexivity|].
  rewrite IH. cbn [imap]. f_equal; [f_equal; lia|].
  apply imap_ext. intros j y _. cbn. f_equal. lia.
Qed.

Lemma expand_refs_gas_eq gas root_doc depth obj path visited_paths :
  expand_refs_gas gas root_doc depth obj path visited_paths =
  if MAX_DEPTH <? depth then max_depth_placeholder path
  else
    match obj with
    | JDict items =>
        match Dict.get "$ref" items with
        | Some ref_path =>
            let key := tracking_key path ref_path in
            if bool_decide (key ∈ visited_paths) then circular_placeholder ref_path
            else
              match resolve_ref_pointer ref_path root_doc with
              | Ok resolved =>
                  match gas with
                  | S g =>
                      expand_refs_gas g root_doc (depth + 1)
                        (merge_props (deepcopy resolved) (other_props items))
                        (ref_location path ref_path) ({[key]} ∪ visited_paths)
                  | O => max_depth_placeholder (ref_location path ref_path)
                  end
              | Raise e => error_placeholder ref_path e
              end
        | None =>
            JDict (Dict.of_items
              (map (fun kv => (kv.1, expand_refs_gas gas root_doc depth kv.2
                                       (key_location path kv.1) visited_paths)) items))
        end
    | JList xs =>
        JList (imap (fun i item => expand_refs_gas gas root_doc depth item
                                     (index_location path i) visited_paths) xs)
    | _ => obj
    end.
Proof.
  destruct gas, obj; try reflexivity.
  all: try (rewrite <- (each_elem_imap
                     (fun item i => expand_refs_gas _ root_doc depth item
                                      (index_location path i) visited_paths) xs 0);
            reflexivity).
  all: rewrite <- (each_item_map
                     (fun value key => expand_refs_gas _ root_doc depth value
                                         (key_location path key) visited_paths) items);
    reflexivity.
Qed.

Lemma gas_succ depth :
  depth <= MAX_DEPTH ->
  Z.to_nat (MAX_DEPTH + 1 - depth) = S (Z.to_nat (MAX_DEPTH + 1 - (depth + 1))).
Proof. unfold MAX_DEPTH. lia. Qed.

(** [expand_refs] satisfies the recursive equation that the source
    function is written as. *)
Lemma expand_refs_eq obj root_doc path depth visited_paths :
  expand_refs obj root_doc path depth visited_paths =
  if MAX_DEPTH <? depth then max_depth_placeholder path
  else
    match obj with
    | JDict items =>
        match Dict.get "$ref" items with
        | Some ref_path =>
            let tracking_key := tracking_key path ref_path in
            if bool_decide (tracking_key ∈ visited_paths) then circular_placeholder ref_path
            else
              let visited_paths := {[tracking_key]} ∪ visited_paths in
              match resolve_ref_pointer ref_path root_doc with
              | Ok resolved =>
                  let resolved := deepcopy resolved in
                  let resolved := merge_props resolved (other_props items) in
                  expand_refs resolved root_doc (ref_location path ref_path) (depth + 1)
                    visited_paths
              | Raise e => error_placeholder ref_path e
              end
        | None =>
            JDict (Dict.of_items
              (map (fun kv => (kv.1, expand_refs kv.2 root_doc (key_location path kv.1) depth
                                       visited_paths)) items))
        end
    | JList xs =>
        JList (imap (fun i item => expand_refs item root_doc (index_location path i) depth
                                     visited_paths) xs)
    | _ => obj
    end.
Proof.
  unfold expand_refs. rewrite expand_refs_gas_eq.
  destruct (Z.ltb_spec MAX_DEPTH depth) as [Hgt|Hle]; [reflexivity|].
  destruct obj as [| | | | |xs|items]; try reflexivity.
  destruct (Dict.get "$ref" items) as [ref_path|]; [|reflexivity].
  cbn zeta. case_bool_decide; [reflexivity|].
  destruct (resolve_ref_pointer ref_path root_doc) as [resolved|e]; [|reflexivity].
  rewrite (gas_succ depth Hle). reflexivity.
Qed.

(** Every activation is assembled from the activations it calls. *)
Lemma run_body root_doc c :
  run root_doc c = assemble (run root_doc) (body root_doc c).
Proof.
  destruct c as [obj path depth visited_paths]. unfold run. cbn [c_obj c_path c_depth c_visited].
  rewrite expand_refs_eq. unfold body.
  destruct (MAX_DEPTH <? depth); [reflexivity|].
  destruct obj as [| | | | |xs|items]; try reflexivity.
  - cbn [assemble]. f_equal. change (map ?f ?l) with (f <$> l).
    rewrite fmap_imap. reflexivity.
  - destruct (Dict.get "$ref" items) as [ref_path|].
    + cbn zeta. case_bool_decide; [reflexivity|].
      destruct (resolve_ref_pointer ref_path root_doc); reflexivity.
    + cbn [assemble]. do 2 f_equal. rewrite map_map. reflexivity.
Qed.

(** Going into the first call again and again follows the call relation. *)
Lemma follow_first_rtc n root_doc c c' :
  follow_first n root_doc c = Some c' -> rtc (calls root_doc) c c'.
Proof.
  revert c. induction n as [|n IH]; intros c Hrun; cbn [follow_first] in Hrun.
  - injection Hrun as <-. apply rtc_refl.
  - destruct (subcalls (body root_doc c)) as [|c1 cs] eqn:Hsub; [discriminate|].
    eapply rtc_l; [|apply IH, Hrun]. unfold calls. rewrite Hsub. left.
Qed.

(** ** Dicts *)

Section dict_facts.
Context {A : Type}.
Implicit Types (k : string) (v : A) (d l : list (string * A)).

Lemma dict_get_set k k' v d :
  Dict.get k (Dict.set k' v d) = if String.eqb k k' then Some v else Dict.get k d.
Proof.
  induction d as [|[k0 v0] d IH]; cbn.
  - destruct (String.eqb_spec k k'); reflexivity.
  - destruct (String.eqb_spec k' k0) as [->|Hne]; cbn.
    + destruct (String.eqb_spec k k0); reflexivity.
    + rewrite IH. destruct (String.eqb_spec k k0) as [->|]; [|reflexivity].
      destruct (String.eqb_spec k0 k'); congruence.
Qed.

Lemma dict_get_None k d : Dict.get k d = None <-> k ∉ Dict.keys d.
Proof.
  unfold Dict.keys. induction d as [|[k0 v0] d IH]; cbn.
  - split; [intros _; apply not_elem_of_nil|reflexivity].
  - rewrite not_elem_of_cons. destruct (String.eqb_spec k k0) as [->|Hne].
    + split; [discriminate|intros [[] _]; reflexivity].
    + rewrite IH. tauto.
Qed.

Lemma dict_get_Some_elem k v d : Dict.get k d = Some v -> (k, v) ∈ d.
Proof.
  induction d as [|[k0 v0] d IH]; cbn; [discriminate|].
  destruct (String.eqb_spec k k0) as [->|Hne].
  - intros [= ->]. left.
  - intros H. right. auto.
Qed.

Lemma dict_set_keys_fresh k v d :
  k ∉ Dict.keys d -> Dict.set k v d = d ++ [(k, v)].
Proof.
  unfold Dict.keys. induction d as [|[k0 v0] d IH]; cbn; [reflexivity|].
  rewrite not_elem_of_cons. intros [Hne Hnin].
  destruct (String.eqb_spec k k0); [congruence|]. rewrite IH by assumption. reflexivity.
Qed.

Lemma dict_set_Forall (P : string * A -> Prop) k v d :
  P (k, v) -> Forall P d -> Forall P (Dict.set k v d).
Proof.
  intros Hkv. induction 1 as [|[k0 v0] d H0 Hd IH]; cbn.
  - repeat constructor. assumption.
  - destruct (String.eqb k k0); constructor; assumption.
Qed.

Lemma dict_fold_set_Forall (P : string * A -> Prop) l d :
  Forall P l -> Forall P d ->
  Forall P (fold_left (fun d kv => Dict.set kv.1 kv.2 d) l d).
Proof.
  intros Hl. revert d. induction Hl as [|[k v] l Hkv Hl IH]; intros d Hd; cbn; [assumption|].
  apply IH. apply dict_set_Forall; assumption.
Qed.

Lemma dict_of_items_Forall (P : string * A -> Prop) l :
  Forall P l -> Forall P (Dict.of_items l).
Proof. intros Hl. apply dict_fold_set_Forall; [assumption|constructor]. Qed.

Lemma dict_fold_set_nodup l d :
  NoDup (Dict.keys (d ++ l)) ->
  fold_left (fun d kv => Dict.set kv.1 kv.2 d) l d = d ++ l.
Proof.
  revert d. induction l as [|[k v] l IH]; intros d Hnd; cbn.
  - rewrite app_nil_r. reflexivity.
  - assert (Hfresh : k ∉ Dict.keys d).
    { unfold Dict.keys in *. rewrite fmap_app in Hnd. cbn in Hnd.
      apply NoDup_app in Hnd as (_ & Hdisj & _). intros Hin.
      apply (Hdisj k Hin). left. }
    rewrite (dict_set_keys_fresh k v d Hfresh).
    rewrite IH; rewrite <- app_assoc; [reflexivity|exact Hnd].
Qed.

(** A dict display over distinct keys is the list of its pairs. *)
Lemma dict_of_items_nodup l : NoDup (Dict.keys l) -> Dict.of_items l = l.
Proof. intros Hnd. apply (dict_fold_set_nodup l []). exact Hnd. Qed.

Lemma dict_of_items_get_None k l :
  Dict.get k l = None -> Dict.get k (Dict.of_items l) = None.
Proof.
  unfold Dict.of_items. generalize (eq_refl : Dict.get k (@nil (string * A)) = None).
  generalize (@nil (string * A)) as d.
  induction l as [|[k0 v0] l IH]; intros d Hd; cbn; [auto|].
  destruct (String.eqb_spec k k0) as [->|Hne]; [discriminate|].
  intros Hl. apply IH; [|assumption].
  rewrite dict_get_set. destruct (String.eqb_spec k k0); congruence.
Qed.
End dict_facts.

(** ** No reference node in the output *)

Lemma existsb_false {A} (f : A -> bool) (l : list A) :
  existsb f l = false <-> Forall (fun x => f x = false) l.
Proof.
  induction l as [|x l IH]; cbn.
  - split; [constructor|reflexivity].
  - rewrite orb_false_iff, IH, Forall_cons. reflexivity.
Qed.

Lemma has_ref_dict items :
  has_ref (JDict items) = false <->
  Dict.get "$ref" items = None /\ Forall (fun kv => has_ref kv.2 = false) items.
Proof.
  cbn [has_ref]. rewrite orb_false_iff, existsb_false. unfold Dict.mem.
  destruct (Dict.get "$ref" items); intuition congruence.
Qed.

Lemma has_ref_placeholder description : has_ref (placeholder description) = false.
Proof. reflexivity. Qed.

Lemma expand_refs_gas_no_ref gas root_doc depth obj path visited_paths :
  has_ref (expand_refs_gas gas root_doc depth obj path visited_paths) = false.
Proof.
  revert depth obj path visited_paths. induction gas as [|g IHg]; intros depth obj.
  all: induction obj as [| | | | |xs IHxs|items IHitems] using json_ind'; intros path visited_paths.
  all: rewrite expand_refs_gas_eq.
  all: destruct (MAX_DEPTH <? depth); [apply has_ref_placeholder|]; try reflexivity.
  all: try (cbn [has_ref]; apply existsb_false, Forall_forall; intros y Hy;
            apply elem_of_lookup_imap in Hy as (i & x & -> & Hx);
            eapply (proj1 (Forall_forall _ _) IHxs); eapply list_elem_of_lookup_2, Hx).
  all: destruct (Dict.get "$ref" items) as [ref_path|] eqn:Hget.
  all: try (cbn zeta; case_bool_decide; [apply has_ref_placeholder|];
            destruct (resolve_ref_pointer ref_path root_doc);
            first [apply has_ref_placeholder|apply IHg]).
  all: apply has_ref_dict; split.
  all: try (apply dict_of_items_get_None; rewrite dict_get_None in Hget |- *;
            unfold Dict.keys in *; rewrite <- list_fmap_compose; exact Hget).
  all: apply dict_of_items_Forall, Forall_fmap; eapply Forall_impl; [exact IHitems|];
    intros [k v] Hv; cbn; apply Hv.
Qed.

(** C1. No references in output: whatever the node, the root, the
    location, the depth and the visited set, the tree that [expand_refs]
    returns has no dict with the key ["$ref"] at any position.  It is
    built as follows by the call and by every call that it reaches, those
    on the nodes nested inside a resolved target among them: the result
    of a call is assembled from the results of the calls that it makes,
    and has no reference left; and a call on a reference node never
    returns the node, it returns

    - the placeholder "Max expansion depth reached" when the depth is
      above the maximum, else
    - the placeholder "Circular reference" when the tracking key is in
      the visited set, else
    - the placeholder "Error resolving" when the pointer fails to
      resolve, else
    - the expansion, one level deeper, of the copy of the resolved
      target overlaid with the sibling keys, which is the result of a
      call that it makes. *)
Theorem C1_no_ref_in_output obj root_doc path depth visited_paths :
  has_ref (expand_refs obj root_doc path depth visited_paths) = false
  /\ (forall c,
        rtc (calls root_doc) (Call obj path depth visited_paths) c ->
        has_ref (run root_doc c) = false
        /\ run root_doc c = assemble (run root_doc) (body root_doc c)
        /\ (forall items ref_path,
              c_obj c = JDict items ->
              Dict.get "$ref" items = Some ref_path ->
              run root_doc c <> c_obj c
              /\ ((MAX_DEPTH < c_depth c
                   /\ run root_doc c = max_depth_placeholder (c_path c))
                  \/ (c_depth c <= MAX_DEPTH
                      /\ (tracking_key (c_path c) ref_path ∈ c_visited c)
                      /\ run root_doc c = circular_placeholder ref_path)
                  \/ (exists e,
                        c_depth c <= MAX_DEPTH
                        /\ (tracking_key (c_path c) ref_path ∉ c_visited c)
                        /\ resolve_ref_pointer ref_path root_doc = Raise e
                        /\ run root_doc c = error_placeholder ref_path e)
                  \/ (exists resolved,
                        c_depth c <= MAX_DEPTH
                        /\ (tracking_key (c_path c) ref_path ∉ c_visited c)
                        /\ resolve_ref_pointer ref_path root_doc = Ok resolved
                        /\ calls root_doc c
                             (Call (merge_props (deepcopy resolved) (other_props items))
                                   (ref_location (c_path c) ref_path) (c_depth c + 1)
                                   ({[tracking_key (c_path c) ref_path]} ∪ c_visited c))
                        /\ run root_doc c
                           = expand_refs (merge_props (deepcopy resolved) (other_props items))
                               root_doc (ref_location (c_path c) ref_path) (c_depth c + 1)
                               ({[tracking_key (c_path c) ref_path]} ∪ c_visited c))))).
Proof.
  split; [apply expand_refs_gas_no_ref|]. intros c _.
  split; [apply expand_refs_gas_no_ref|]. split; [apply run_body|].
  intros items ref_path Hobj Hget. split.
  - intros Heq. pose proof (expand_refs_gas_no_ref
      (Z.to_nat (MAX_DEPTH + 1 - c_depth c)) root_doc (c_depth c) (c_obj c) (c_path c)
      (c_visited c)) as Hnone.
    unfold run, expand_refs in Heq. rewrite Heq, Hobj in Hnone.
    cbn [has_ref] in Hnone. unfold Dict.mem in Hnone. rewrite Hget in Hnone. discriminate.
  - unfold calls, run. destruct c as [o p d v]. cbn [c_obj c_path c_depth c_visited] in *.
    subst o. rewrite expand_refs_eq. unfold body. rewrite Hget.
    destruct (Z.ltb_spec MAX_DEPTH d) as [Hgt|Hle]; [left; split; [exact Hgt|reflexivity]|].
    right. cbn zeta. case_bool_decide as Hin; [left; repeat split; assumption|].
    right. destruct (resolve_ref_pointer ref_path root_doc) as [resolved|e].
    + right. exists resolved. repeat split; try assumption. left.
    + left. exists e. repeat split; assumption.
Qed.

(** The reference node of the sibling-override example, reached from the
    first call through the dicts ["paths"] and ["/pets"]: its result is
    the expansion of the target with the sibling on top. *)
Lemma C1_no_ref_in_output_witness :
  rtc (calls Samples.pet_doc) (first_call Samples.pet_doc)
      (Call Samples.pet_ref "root.paths./pets" 0 ∅)
  /\ has_ref (expand_document Samples.pet_doc) = false
  /\ expand_refs Samples.pet_ref Samples.pet_doc "root.paths./pets" 0 ∅ <> Samples.pet_ref
  /\ expand_refs Samples.pet_ref Samples.pet_doc "root.paths./pets" 0 ∅
     = expand_refs (JDict [("type", JStr "object"); ("description", JStr "override")])
         Samples.pet_doc "root.paths./pets->#/components/schemas/Pet" 1
         ({["root.paths./pets:#/components/schemas/Pet"]} ∪ ∅).
Proof.
  assert (Hreach : rtc (calls Samples.pet_doc) (first_call Samples.pet_doc)
                       (Call Samples.pet_ref "root.paths./pets" 0 ∅)).
  { apply (follow_first_rtc 2). vm_compute. reflexivity. }
  destruct (C1_no_ref_in_output Samples.pet_doc Samples.pet_doc "root" 0 ∅) as [Hnone Hcalls].
  destruct (Hcalls _ Hreach) as (_ & _ & Href).
  destruct (Href Samples.pet_items (JStr "#/components/schemas/Pet") eq_refl eq_refl)
    as [Hne Hcases].
  split; [exact Hreach|]. split; [exact Hnone|]. split; [exact Hne|].
  destruct Hcases as [[Hgt _]|[(_ & Hin & _)|[(e & _ & _ & Hres & _)|(resolved & _ & _ & Hres & _ & Hrun)]]].
  - cbn in Hgt. unfold MAX_DEPTH in Hgt. lia.
  - cbn in Hin. apply elem_of_empty in Hin. destruct Hin.
  - vm_compute in Hres. discriminate Hres.
  - assert (Hok : resolve_ref_pointer (JStr "#/components/schemas/Pet") Samples.pet_doc
                  = Ok (JDict Samples.pet_target)) by (vm_compute; reflexivity).
    rewrite Hok in Hres. injection Hres as <-. exact Hrun.
Defined.

(** ** Documents without references *)

Lemma forallb_Forall {A} (f : A -> bool) (l : list A) :
  forallb f l = true <-> Forall (fun x => f x = true) l.
Proof.
  induction l as [|x l IH]; cbn.
  - split; [constructor|reflexivity].
  - rewrite andb_true_iff, IH, Forall_cons. reflexivity.
Qed.

Lemma json_wf_dict items :
  json_wf (JDict items) = true <->
  NoDup (Dict.keys items) /\ Forall (fun kv => json_wf kv.2 = true) items.
Proof.
  cbn [json_wf]. rewrite andb_true_iff, bool_decide_eq_true, forallb_Forall. reflexivity.
Qed.

Lemma imap_id_on {A} (f : nat -> A -> A) (l : list A) :
  (forall i x, l !! i = Some x -> f i x = x) -> imap f l = l.
Proof.
  revert f. induction l as [|x l IH]; intros f Hf; [reflexivity|].
  cbn [imap]. rewrite (Hf 0%nat x eq_refl). f_equal.
  apply IH. intros i y Hy. apply (Hf (S i) y Hy).
Qed.

Lemma map_id_on {A} (f : A -> A) (l : list A) :
  Forall (fun x => f x = x) l -> map f l = l.
Proof. induction 1 as [|x l Hx _ IH]; cbn; congruence. Qed.

Lemma expand_refs_ref_free obj root_doc path depth visited_paths :
  json_wf obj = true -> has_ref obj = false -> depth <= MAX_DEPTH ->
  expand_refs obj root_doc path depth visited_paths = obj.
Proof.
  intros Hwf Href Hdepth. revert path Hwf Href.
  induction obj as [| | | | |xs IHxs|items IHitems] using json_ind'; intros path Hwf Href.
  all: rewrite expand_refs_eq.
  all: destruct (Z.ltb_spec MAX_DEPTH depth) as [Hgt|_]; [lia|]; try reflexivity.
  - f_equal. apply imap_id_on. intros i x Hx.
    cbn [json_wf has_ref] in Hwf, Href.
    rewrite forallb_Forall in Hwf. rewrite existsb_false in Href.
    apply list_elem_of_lookup_2 in Hx.
    rewrite Forall_forall in IHxs, Hwf, Href. auto.
  - apply json_wf_dict in Hwf as [Hnd Hwf]. apply has_ref_dict in Href as [Hget Href].
    rewrite Hget. f_equal.
    assert (Hmap : map (fun kv => (kv.1, expand_refs kv.2 root_doc (key_location path kv.1)
                                           depth visited_paths)) items = items).
    { apply map_id_on. rewrite Forall_forall in IHitems, Hwf, Href |- *.
      intros [k v] Hkv. cbn. f_equal. apply (IHitems _ Hkv); [apply (Hwf _ Hkv)|apply (Href _ Hkv)]. }
    rewrite Hmap. apply dict_of_items_nodup, Hnd.
Qed.

(** C7. Idempotence on reference-free input: a document in which no dict
    has the key ["$ref"] is returned as it is by [expand_refs(D, D)], with
    the same keys in the same order, the same elements in the same order
    and the same scalars. *)
Theorem C7_ref_free_unchanged (D : json) :
  json_wf D = true -> has_ref D = false -> expand_document D = D.
Proof.
  intros Hwf Href. apply expand_refs_ref_free; [assumption..|]. unfold MAX_DEPTH. lia.
Qed.

Lemma C7_ref_free_unchanged_witness :
  json_wf Samples.plain = true /\ has_ref Samples.plain = false /\
  expand_document Samples.plain = Samples.plain.
Proof.
  split; [vm_compute; reflexivity|]. split; [reflexivity|].
  apply (C7_ref_free_unchanged Samples.plain); vm_compute; reflexivity.
Defined.

(** ** The overlay of sibling keys *)

Section merge_facts.
Context {A : Type}.
Implicit Types (k : string) (v : A) (d l a b : list (string * A)).

Lemma dict_get_app k a b :
  Dict.get k (a ++ b) = match Dict.get k a with Some v => Some v | None => Dict.get k b end.
Proof.
  induction a as [|[k0 v0] a IH]; cbn; [reflexivity|].
  destruct (String.eqb k k0); [reflexivity|apply IH].
Qed.

(** After a run of insertions the last pair of a key is the one found. *)
Lemma dict_get_fold_set k l d :
  Dict.get k (fold_left (fun d kv => Dict.set kv.1 kv.2 d) l d) =
  match Dict.get k (reverse l) with Some v => Some v | None => Dict.get k d end.
Proof.
  revert d. induction l as [|[k0 v0] l IH]; intros d; [reflexivity|].
  rewrite reverse_cons. cbn [fold_left].
  rewrite IH, dict_get_app, dict_get_set. cbn.
  destruct (Dict.get k (reverse l)); [reflexivity|].
  destruct (String.eqb k k0); reflexivity.
Qed.

Lemma dict_get_elem_nodup k v l :
  NoDup (Dict.keys l) -> (k, v) ∈ l -> Dict.get k l = Some v.
Proof.
  unfold Dict.keys. induction l as [|[k0 v0] l IH]; cbn; intros Hnd Hin.
  - apply elem_of_nil in Hin as [].
  - apply NoDup_cons in Hnd as [Hfresh Hnd]. apply elem_of_cons in Hin as [[= -> ->]|Hin].
    + rewrite String.eqb_refl. reflexivity.
    + destruct (String.eqb_spec k k0) as [->|_]; [|auto].
      exfalso. apply Hfresh. apply (list_elem_of_fmap_2 fst _ _ Hin).
Qed.

Lemma dict_get_rev_nodup k l :
  NoDup (Dict.keys l) -> Dict.get k (reverse l) = Dict.get k l.
Proof.
  intros Hnd.
  assert (Hnd' : NoDup (Dict.keys (reverse l))).
  { unfold Dict.keys in *. rewrite fmap_reverse, reverse_Permutation. exact Hnd. }
  destruct (Dict.get k l) as [v|] eqn:Hl.
  - apply dict_get_elem_nodup; [exact Hnd'|].
    apply elem_of_reverse, dict_get_Some_elem, Hl.
  - apply dict_get_None. apply dict_get_None in Hl. unfold Dict.keys in *.
    rewrite fmap_reverse, elem_of_reverse. exact Hl.
Qed.

(** [{**a, **b}] reads [b] first: the second dict wins on a shared key. *)
Lemma dict_get_merge k a b :
  NoDup (Dict.keys a) -> NoDup (Dict.keys b) ->
  Dict.get k (Dict.merge a b) =
  match Dict.get k b with Some v => Some v | None => Dict.get k a end.
Proof.
  intros Ha Hb. unfold Dict.merge, Dict.of_items.
  rewrite dict_get_fold_set, reverse_app, dict_get_app.
  rewrite !dict_get_rev_nodup by assumption.
  destruct (Dict.get k b); [reflexivity|]. destruct (Dict.get k a); reflexivity.
Qed.

Lemma dict_get_filter_ne k r l :
  k <> r -> Dict.get k (filter (fun kv => kv.1 ≠ r) l) = Dict.get k l.
Proof.
  intros Hne. induction l as [|[k0 v0] l IH]; [reflexivity|].
  rewrite filter_cons. cbn. case_decide as Hk0; cbn.
  - rewrite IH. reflexivity.
  - try apply dec_stable in Hk0. subst k0.
    destruct (String.eqb_spec k r); [congruence|exact IH].
Qed.

Lemma nodup_keys_filter (P : string * A -> Prop) `{!forall x, Decision (P x)} l :
  NoDup (Dict.keys l) -> NoDup (Dict.keys (filter P l)).
Proof.
  unfold Dict.keys. induction l as [|[k0 v0] l IH]; [intros; constructor|].
  rewrite filter_cons, fmap_cons, NoDup_cons. intros [Hfresh Hnd].
  case_decide; [|auto]. rewrite fmap_cons. apply NoDup_cons. split; [|auto]. cbn.
  intros Hin. apply Hfresh. apply list_elem_of_fmap in Hin as (y & -> & Hy).
  apply list_elem_of_filter in Hy as [_ Hy]. apply (list_elem_of_fmap_2 fst _ _ Hy).
Qed.

(** On a dict, the sibling keys are the items other than ["$ref"], in
    their order. *)
Lemma other_props_nodup (items : list (string * A)) :
  NoDup (Dict.keys items) -> other_props items = filter (fun kv => kv.1 ≠ "$ref") items.
Proof. intros Hnd. apply dict_of_items_nodup, nodup_keys_filter, Hnd. Qed.
End merge_facts.

Lemma deepcopy_id j : deepcopy j = j.
Proof.
  induction j as [| | | | |xs IHxs|items IHitems] using json_ind'; try reflexivity; cbn; f_equal.
  - apply map_id_on, IHxs.
  - apply map_id_on. eapply Forall_impl; [exact IHitems|].
    intros [k v] Hv. cbn in *. congruence.
Qed.

(** Following a reference: the equation of the source on a reference node
    whose pointer resolves. *)
Lemma expand_refs_follow items ref_path root_doc path depth visited_paths resolved :
  depth <= MAX_DEPTH ->
  Dict.get "$ref" items = Some ref_path ->
  tracking_key path ref_path ∉ visited_paths ->
  resolve_ref_pointer ref_path root_doc = Ok resolved ->
  expand_refs (JDict items) root_doc path depth visited_paths =
  expand_refs (merge_props resolved (other_props items)) root_doc
    (ref_location path ref_path) (depth + 1)
    ({[tracking_key path ref_path]} ∪ visited_paths).
Proof.
  intros Hdepth Hget Hfresh Hres. rewrite expand_refs_eq.
  destruct (Z.ltb_spec MAX_DEPTH depth); [lia|]. rewrite Hget. cbn zeta.
  rewrite bool_decide_eq_false_2 by assumption. rewrite Hres, deepcopy_id. reflexivity.
Qed.

(** C5. Sibling override merge: the reference node of the example, whose
    target [Pet] is [{"type": "object", "description": "original"}],
    expands to [{"type": "object", "description": "override"}]; and for
    every reference node with sibling keys whose target is a dict, the
    node expanded in its place is the target overlaid with the sibling
    keys, where each sibling key has the value of the reference node and
    every other key the value of the target. *)
Theorem C5_sibling_override :
  expand_refs Samples.pet_ref Samples.pet_doc "root" 0 ∅
    = JDict [("type", JStr "object"); ("description", JStr "override")]
  /\ forall items ref_path root_doc path depth visited_paths target,
      depth <= MAX_DEPTH ->
      NoDup (Dict.keys items) ->
      Dict.get "$ref" items = Some ref_path ->
      tracking_key path ref_path ∉ visited_paths ->
      resolve_ref_pointer ref_path root_doc = Ok (JDict target) ->
      NoDup (Dict.keys target) ->
      other_props items <> [] ->
      let merged := Dict.merge target (other_props items) in
      expand_refs (JDict items) root_doc path depth visited_paths
        = expand_refs (JDict merged) root_doc (ref_location path ref_path) (depth + 1)
            ({[tracking_key path ref_path]} ∪ visited_paths)
      /\ (forall k v, k <> "$ref" -> Dict.get k items = Some v -> Dict.get k merged = Some v)
      /\ (forall k, Dict.get k items = None -> Dict.get k merged = Dict.get k target).
Proof.
  split; [vm_compute; reflexivity|].
  intros items ref_path root_doc path depth visited_paths target
    Hdepth Hnd Hget Hfresh Hres Hndt Hprops merged.
  assert (Hlookup : forall k, Dict.get k merged =
            match (if String.eqb k "$ref" then None else Dict.get k items) with
            | Some v => Some v
            | None => Dict.get k target
            end).
  { intros k. unfold merged. rewrite dict_get_merge.
    - rewrite other_props_nodup by assumption.
      destruct (String.eqb_spec k "$ref") as [->|Hne].
      + replace (Dict.get "$ref" (filter (fun kv => kv.1 ≠ "$ref") items)) with (@None json);
          [reflexivity|].
        symmetry. apply dict_get_None. unfold Dict.keys. intros Hin.
        apply list_elem_of_fmap in Hin as ([k v] & Hk & Hin).
        apply list_elem_of_filter in Hin as [Hne _]. cbn in *. congruence.
      + rewrite dict_get_filter_ne by assumption. reflexivity.
    - assumption.
    - rewrite other_props_nodup by assumption. apply nodup_keys_filter, Hnd. }
  split; [|split].
  - rewrite (expand_refs_follow items ref_path root_doc path depth visited_paths (JDict target))
      by assumption.
    unfold merge_props. destruct (other_props items); [congruence|reflexivity].
  - intros k v Hne Hk. rewrite Hlookup.
    destruct (String.eqb_spec k "$ref"); [congruence|]. rewrite Hk. reflexivity.
  - intros k Hk. rewrite Hlookup. rewrite Hk. destruct (String.eqb k "$ref"); reflexivity.
Qed.

Lemma C5_sibling_override_witness :
  (0 <= MAX_DEPTH)
  /\ NoDup (Dict.keys Samples.pet_items)
  /\ (Dict.get "$ref" Samples.pet_items = Some (JStr "#/components/schemas/Pet"))
  /\ (tracking_key "root" (JStr "#/components/schemas/Pet") ∉ (∅ : gset string))
  /\ (resolve_ref_pointer (JStr "#/components/schemas/Pet") Samples.pet_doc
       = Ok (JDict Samples.pet_target))
  /\ NoDup (Dict.keys Samples.pet_target)
  /\ (other_props Samples.pet_items <> [])
  /\ (Dict.get "description" (Dict.merge Samples.pet_target (other_props Samples.pet_items))
       = Some (JStr "override")).
Proof.
  assert (H1 : 0 <= MAX_DEPTH) by (unfold MAX_DEPTH; lia).
  assert (H2 : NoDup (Dict.keys Samples.pet_items))
    by (apply (bool_decide_unpack _); vm_compute; exact I).
  assert (H3 : Dict.get "$ref" Samples.pet_items = Some (JStr "#/components/schemas/Pet"))
    by reflexivity.
  assert (H4 : tracking_key "root" (JStr "#/components/schemas/Pet") ∉ (∅ : gset string))
    by apply not_elem_of_empty.
  assert (H5 : resolve_ref_pointer (JStr "#/components/schemas/Pet") Samples.pet_doc
               = Ok (JDict Samples.pet_target)) by (vm_compute; reflexivity).
  assert (H6 : NoDup (Dict.keys Samples.pet_target))
    by (apply (bool_decide_unpack _); vm_compute; exact I).
  assert (H7 : other_props Samples.pet_items <> []) by (vm_compute; discriminate).
  repeat (split; [assumption|]).
  destruct (proj2 C5_sibling_override Samples.pet_items _ _ _ _ _ _ H1 H2 H3 H4 H5 H6 H7)
    as (_ & Hsibling & _).
  apply Hsibling; [discriminate|reflexivity].
Defined.

(** ** Failures of the resolver *)

Lemma walk_parts_app ref_path before after current :
  walk_parts ref_path (before ++ after) current =
  match walk_parts ref_path before current with
  | Ok v => walk_parts ref_path after v
  | Raise e => Raise e
  end.
Proof.
  revert current. induction before as [|part before IH]; intros current; [reflexivity|].
  cbn [app walk_parts]. destruct current as [| | | | |xs|items]; try reflexivity.
  - destruct (PyStr.int (unescape part)) as [i|e]; [|reflexivity].
    destruct (list_index xs i); [apply IH|reflexivity].
  - destruct (Dict.get (unescape part) items); [apply IH|reflexivity].
Qed.

Lemma list_index_out_of_range {A} (xs : list A) i :
  i < - Z.of_nat (length xs) \/ Z.of_nat (length xs) <= i ->
  exists e, list_index xs i = Raise e.
Proof.
  intros Hrange. unfold list_index.
  destruct ((i <? - ssize_max - 1) || (ssize_max <? i)); [eauto|].
  cbn zeta. destruct (Z.ltb_spec i 0).
  - destruct (Z.ltb_spec (i + Z.of_nat (length xs)) 0); [cbn; eauto|lia].
  - destruct (Z.ltb_spec i 0); [lia|].
    destruct (Z.leb_spec (Z.of_nat (length xs)) i); [cbn; eauto|lia].
Qed.

Lemma walk_parts_step_fails ref_path part rest current :
  step_fails current (unescape part) ->
  exists e, walk_parts ref_path (part :: rest) current = Raise e.
Proof.
  intros Hfail. cbn [walk_parts]. destruct current as [| | | | |xs|items]; cbn in Hfail; eauto.
  - destruct (PyStr.int (unescape part)) as [i|e]; [|eauto].
    destruct (list_index_out_of_range xs i Hfail) as [e ->]. eauto.
  - rewrite Hfail. eauto.
Qed.

Lemma resolve_external s root_doc :
  PyStr.startswith s "#/" = false ->
  resolve_ref_pointer (JStr s) root_doc
  = Raise (ValueError ("External references not supported: " +:+ s)).
Proof. intros Hs. unfold resolve_ref_pointer. rewrite Hs. reflexivity. Qed.

Lemma resolve_step_fails s root_doc before part after current :
  PyStr.startswith s "#/" = true ->
  PyStr.split "/" (PyStr.drop 2 s) = before ++ part :: after ->
  walk_parts s before root_doc = Ok current ->
  step_fails current (unescape part) ->
  exists e, resolve_ref_pointer (JStr s) root_doc = Raise e.
Proof.
  intros Hs Hsplit Hbefore Hfail. unfold resolve_ref_pointer. rewrite Hs, Hsplit. cbn [negb].
  rewrite walk_parts_app, Hbefore. apply walk_parts_step_fails, Hfail.
Qed.

(** The failure of the pointer of a reference node becomes its value. *)
Lemma expand_refs_error items ref_path root_doc path depth visited_paths e :
  depth <= MAX_DEPTH ->
  Dict.get "$ref" items = Some ref_path ->
  tracking_key path ref_path ∉ visited_paths ->
  resolve_ref_pointer ref_path root_doc = Raise e ->
  expand_refs (JDict items) root_doc path depth visited_paths = error_placeholder ref_path e.
Proof.
  intros Hdepth Hget Hfresh Hres. rewrite expand_refs_eq.
  destruct (Z.ltb_spec MAX_DEPTH depth); [lia|]. rewrite Hget. cbn zeta.
  rewrite bool_decide_eq_false_2 by assumption. rewrite Hres. reflexivity.
Qed.

Lemma dict_get_map_values (f : string * json -> json) k (items : list (string * json)) :
  Dict.get k (map (fun kv => (kv.1, f kv)) items) =
  match Dict.get k items with Some v => Some (f (k, v)) | None => None end.
Proof.
  induction items as [|[k0 v0] items IH]; cbn; [reflexivity|].
  destruct (String.eqb_spec k k0) as [->|]; [reflexivity|apply IH].
Qed.

(** Walking into a dict: each value is expanded on its own. *)
Lemma expand_refs_dict items root_doc path depth visited_paths :
  depth <= MAX_DEPTH ->
  NoDup (Dict.keys items) ->
  Dict.get "$ref" items = None ->
  expand_refs (JDict items) root_doc path depth visited_paths =
  JDict (map (fun kv => (kv.1, expand_refs kv.2 root_doc (key_location path kv.1) depth
                                  visited_paths)) items).
Proof.
  intros Hdepth Hnd Hget. rewrite expand_refs_eq.
  destruct (Z.ltb_spec MAX_DEPTH depth); [lia|]. rewrite Hget. f_equal.
  apply dict_of_items_nodup. unfold Dict.keys in *.
  rewrite <- list_fmap_compose. exact Hnd.
Qed.

(** C6. Fault isolation: the pointer of a reference node that fails to
    resolve (an external reference, a missing key, an index that is
    missing or not a number, a descent into a scalar) makes the node
    expand to the placeholder whose description is "Error resolving",
    the reference and the message of the failure; [expand_refs] returns
    a tree all the same, in which every sibling of the node is expanded
    on its own. *)
Theorem C6_failures_inlined :
  expand_document Samples.missing_doc = Samples.missing_doc_expanded
  /\ (forall items ref_path root_doc path depth visited_paths e,
        depth <= MAX_DEPTH ->
        Dict.get "$ref" items = Some ref_path ->
        tracking_key path ref_path ∉ visited_paths ->
        resolve_ref_pointer ref_path root_doc = Raise e ->
        expand_refs (JDict items) root_doc path depth visited_paths
        = JDict [("type", JStr "object");
                 ("description",
                  JStr ("Error resolving " +:+ py_str ref_path +:+ ": " +:+ str_exc e))])
  /\ (forall s root_doc,
        PyStr.startswith s "#/" = false ->
        exists e, resolve_ref_pointer (JStr s) root_doc = Raise e)
  /\ (forall s root_doc before part after current,
        PyStr.startswith s "#/" = true ->
        PyStr.split "/" (PyStr.drop 2 s) = before ++ part :: after ->
        walk_parts s before root_doc = Ok current ->
        step_fails current (unescape part) ->
        exists e, resolve_ref_pointer (JStr s) root_doc = Raise e)
  /\ (forall items root_doc path depth visited_paths k v,
        depth <= MAX_DEPTH ->
        NoDup (Dict.keys items) ->
        Dict.get "$ref" items = None ->
        Dict.get k items = Some v ->
        exists items',
          expand_refs (JDict items) root_doc path depth visited_paths = JDict items'
          /\ Dict.get k items'
             = Some (expand_refs v root_doc (key_location path k) depth visited_paths))
  /\ (forall xs root_doc path depth visited_paths i x,
        depth <= MAX_DEPTH ->
        xs !! i = Some x ->
        exists xs',
          expand_refs (JList xs) root_doc path depth visited_paths = JList xs'
          /\ xs' !! i
             = Some (expand_refs x root_doc (index_location path i) depth visited_paths)).
Proof.
  split; [vm_compute; reflexivity|]. split; [|split; [|split; [|split]]].
  - intros. apply expand_refs_error; assumption.
  - intros s root_doc Hs. rewrite resolve_external by assumption. eauto.
  - intros. eapply resolve_step_fails; eassumption.
  - intros items root_doc path depth visited_paths k v Hdepth Hnd Href Hk.
    rewrite expand_refs_dict by assumption. eexists. split; [reflexivity|].
    rewrite dict_get_map_values, Hk. reflexivity.
  - intros xs root_doc path depth visited_paths i x Hdepth Hx.
    rewrite expand_refs_eq. destruct (Z.ltb_spec MAX_DEPTH depth); [lia|].
    eexists. split; [reflexivity|]. rewrite list_lookup_imap, Hx. reflexivity.
Qed.

Lemma C6_failures_inlined_witness :
  (0 <= MAX_DEPTH)
  /\ (Dict.get "$ref" [("$ref", JStr "#/components/schemas/DoesNotExist")]
      = Some (JStr "#/components/schemas/DoesNotExist"))
  /\ (tracking_key "root.paths.bad" (JStr "#/components/schemas/DoesNotExist")
      ∉ (∅ : gset string))
  /\ (resolve_ref_pointer (JStr "#/components/schemas/DoesNotExist") Samples.missing_doc
      = Raise (KeyError "DoesNotExist"))
  /\ (expand_refs (Samples.schema_ref "DoesNotExist") Samples.missing_doc "root.paths.bad" 0 ∅
      = placeholder "Error resolving #/components/schemas/DoesNotExist: 'DoesNotExist'").
Proof.
  assert (H1 : 0 <= MAX_DEPTH) by (unfold MAX_DEPTH; lia).
  assert (H2 : Dict.get "$ref" [("$ref", JStr "#/components/schemas/DoesNotExist")]
               = Some (JStr "#/components/schemas/DoesNotExist")) by reflexivity.
  assert (H3 : tracking_key "root.paths.bad" (JStr "#/components/schemas/DoesNotExist")
               ∉ (∅ : gset string)) by apply not_elem_of_empty.
  assert (H4 : resolve_ref_pointer (JStr "#/components/schemas/DoesNotExist")
                 Samples.missing_doc = Raise (KeyError "DoesNotExist"))
    by (vm_compute; reflexivity).
  repeat (split; [assumption|]).
  exact (proj1 (proj2 C6_failures_inlined) _ _ _ _ _ _ _ H1 H2 H3 H4).
Defined.

(** ** The depth guard *)

Lemma expand_refs_guard obj root_doc path depth visited_paths :
  MAX_DEPTH < depth ->
  expand_refs obj root_doc path depth visited_paths = max_depth_placeholder path.
Proof.
  intros Hgt. rewrite expand_refs_eq.
  destruct (Z.ltb_spec MAX_DEPTH depth); [reflexivity|lia].
Qed.

(** What an activation calls, case by case. *)
Lemma calls_inv root_doc c c' :
  calls root_doc c c' ->
  (c_depth c <= MAX_DEPTH) /\
  ((exists items ref_path resolved,
      c_obj c = JDict items /\ Dict.get "$ref" items = Some ref_path /\
      (tracking_key (c_path c) ref_path ∉ c_visited c) /\
      resolve_ref_pointer ref_path root_doc = Ok resolved /\
      c' = Call (merge_props (deepcopy resolved) (other_props items))
                (ref_location (c_path c) ref_path) (c_depth c + 1)
                ({[tracking_key (c_path c) ref_path]} ∪ c_visited c))
   \/ (exists items k v,
         c_obj c = JDict items /\ Dict.get "$ref" items = None /\ (k, v) ∈ items /\
         c' = Call v (key_location (c_path c) k) (c_depth c) (c_visited c))
   \/ (exists xs i x,
         c_obj c = JList xs /\ xs !! i = Some x /\
         c' = Call x (index_location (c_path c) i) (c_depth c) (c_visited c))).
Proof.
  destruct c as [obj path depth visited_paths]. unfold calls, body. cbn [c_obj c_path c_depth c_visited].
  destruct (Z.ltb_spec MAX_DEPTH depth) as [|Hdepth]; [intros []%elem_of_nil|].
  intros Hin. split; [assumption|].
  destruct obj as [| | | | |xs|items]; cbn [subcalls] in Hin; try (apply elem_of_nil in Hin as []).
  - right. right. apply elem_of_lookup_imap in Hin as (i & x & -> & Hx). eauto 10.
  - destruct (Dict.get "$ref" items) as [ref_path|] eqn:Hget.
    + left. cbn zeta in Hin. case_bool_decide as Hkey; [apply elem_of_nil in Hin as []|].
      destruct (resolve_ref_pointer ref_path root_doc) as [resolved|e] eqn:Hres;
        [|apply elem_of_nil in Hin as []].
      apply list_elem_of_singleton in Hin. eauto 10.
    + right. left. cbn [subcalls] in Hin.
      apply list_elem_of_fmap in Hin as ([k c0] & -> & Hin).
      apply list_elem_of_fmap in Hin as ([k' v] & [= -> ->] & Hin). eauto 10.
Qed.

(** The depth guard is the only place where the placeholder "Max
    expansion depth reached" is made. *)
Lemma body_max_depth_guard root_doc c :
  body root_doc c = Return (max_depth_placeholder (c_path c)) -> MAX_DEPTH < c_depth c.
Proof.
  destruct c as [obj path depth visited_paths]. unfold body. cbn [c_path c_depth].
  destruct (Z.ltb_spec MAX_DEPTH depth) as [Hgt|_]; [intros _; exact Hgt|].
  destruct obj as [| | | | |xs|items]; try discriminate.
  destruct (Dict.get "$ref" items) as [ref_path|]; [|discriminate].
  cbn zeta. case_bool_decide; [discriminate|].
  destruct (resolve_ref_pointer ref_path root_doc); discriminate.
Qed.

(** C4 as stated fails: in the document with the chain of fifteen
    schemas, no activation of depth 10 or less returns the placeholder
    "Max expansion depth reached". *)
Lemma C4_not_by_depth_10 :
  ~ exists c,
      reachable (Samples.chain_doc 15) c /\ c_depth c <= 10
      /\ body (Samples.chain_doc 15) c = Return (max_depth_placeholder (c_path c)).
Proof.
  intros (c & _ & Hdepth & Hbody). apply body_max_depth_guard in Hbody.
  unfold MAX_DEPTH in Hbody. lia.
Qed.

(** C4. Depth bound, amended: in the document with the chain of fifteen
    schemas [S1] to [S15], each a reference to the next, the schema [S1]
    expands to the placeholder "Max expansion depth reached at" with the
    location reached by eleven dereferences, returned by the activation
    of depth 11; [expand_refs] returns that placeholder whenever its
    depth is above the maximum of 10, following a reference calls
    [expand_refs] with the depth plus one, and no activation deeper than
    10 calls another. *)
Theorem C4_depth_bound :
  resolve_ref_pointer (JStr "#/components/schemas/S1") (expand_document (Samples.chain_doc 15))
    = Ok (JDict [("type", JStr "object");
                 ("description",
                  JStr ("Max expansion depth reached at "
                        +:+ Samples.chain_location "root.components.schemas.S1" 2 11))])
  /\ ((forall c, Samples.chain_end = Some c -> reachable (Samples.chain_doc 15) c)
      /\ c_depth <$> Samples.chain_end = Some 11
      /\ body (Samples.chain_doc 15) <$> Samples.chain_end
         = Some (Return (max_depth_placeholder
                           (Samples.chain_location "root.components.schemas.S1" 2 11))))
  /\ (forall obj root_doc path depth visited_paths,
        MAX_DEPTH < depth ->
        expand_refs obj root_doc path depth visited_paths
        = JDict [("type", JStr "object");
                 ("description", JStr ("Max expansion depth reached at " +:+ path))])
  /\ (forall items ref_path root_doc path depth visited_paths resolved,
        depth <= MAX_DEPTH ->
        Dict.get "$ref" items = Some ref_path ->
        tracking_key path ref_path ∉ visited_paths ->
        resolve_ref_pointer ref_path root_doc = Ok resolved ->
        expand_refs (JDict items) root_doc path depth visited_paths
        = expand_refs (merge_props resolved (other_props items)) root_doc
            (ref_location path ref_path) (depth + 1)
            ({[tracking_key path ref_path]} ∪ visited_paths))
  /\ (forall root_doc c c',
        calls root_doc c c' ->
        (c_depth c <= MAX_DEPTH) /\ (c_depth c <= c_depth c' <= c_depth c + 1)).
Proof.
  split; [vm_compute; reflexivity|]. split; [|split; [|split]].
  - split; [|split; vm_compute; reflexivity].
    intros c Hc. apply (follow_first_rtc 14), Hc.
  - intros. apply expand_refs_guard. assumption.
  - intros. apply expand_refs_follow; assumption.
  - intros root_doc c c' Hcall. apply calls_inv in Hcall as [Hdepth Hcases].
    split; [assumption|].
    destruct Hcases as [(? & ? & ? & _ & _ & _ & _ & ->)|[(? & ? & ? & _ & _ & _ & ->)
                       |(? & ? & ? & _ & _ & ->)]]; cbn; lia.
Qed.

Lemma C4_depth_bound_witness :
  (MAX_DEPTH < 11)
  /\ (expand_refs (Samples.schema_ref "A") Samples.self_doc "root" 11 ∅
      = placeholder "Max expansion depth reached at root").
Proof.
  assert (H : MAX_DEPTH < 11) by (unfold MAX_DEPTH; lia).
  split; [assumption|].
  exact (proj1 (proj2 (proj2 C4_depth_bound)) _ _ _ _ _ H).
Defined.

(** C2. Self-cycle: the schema [A] that is a reference to itself does not
    expand to the placeholder "Circular reference"; the reference is
    followed eleven times and the depth guard ends the expansion. *)
Theorem C2_self_reference_hits_depth_guard :
  resolve_ref_pointer (JStr "#/components/schemas/A") (expand_document Samples.self_doc)
    = Ok (max_depth_placeholder
            (fold_left (fun path _ => path +:+ "->#/components/schemas/A")
                       (seq 0 11) "root.components.schemas.A"))
  /\ resolve_ref_pointer (JStr "#/components/schemas/A") (expand_document Samples.self_doc)
     <> Ok (JDict [("type", JStr "object");
                   ("description", JStr "Circular reference: #/components/schemas/A")]).
Proof. split; [vm_compute; reflexivity|vm_compute; discriminate]. Qed.

(** ** Unescaping of pointer segments *)

Lemma replace_cons_other old new c r :
  PyStr.startswith (String c r) old = false ->
  PyStr.replace old new (String c r) = String c (PyStr.replace old new r).
Proof. intros H. unfold PyStr.replace. cbn [PyStr.replace_from]. rewrite H. reflexivity. Qed.

Lemma replace2_cons_match a b new r :
  PyStr.replace (String a (String b EmptyString)) new (String a (String b r))
  = new +:+ PyStr.replace (String a (String b EmptyString)) new r.
Proof.
  unfold PyStr.replace.
  cbn [PyStr.replace_from PyStr.startswith String.length Nat.sub andb].
  rewrite !Ascii.eqb_refl. cbn [andb]. destruct r; reflexivity.
Qed.

Lemma unescape_slash_of_escape s :
  PyStr.replace "~0" "~" (PyStr.replace "~1" "/" (rfc6901_escape s)) = s.
Proof.
  induction s as [|c s IH]; [reflexivity|]. cbn [rfc6901_escape].
  destruct (Ascii.eqb_spec c "~") as [->|Htilde].
  - change ("~0" +:+ rfc6901_escape s) with (String "~" (String "0" (rfc6901_escape s))).
    rewrite (replace_cons_other "~1" "/" "~") by reflexivity.
    rewrite (replace_cons_other "~1" "/" "0") by reflexivity.
    rewrite (replace2_cons_match "~" "0"). rewrite IH. reflexivity.
  - destruct (Ascii.eqb_spec c "/") as [->|Hslash].
    + change ("~1" +:+ rfc6901_escape s) with (String "~" (String "1" (rfc6901_escape s))).
      rewrite (replace2_cons_match "~" "1").
      change ("/" +:+ ?x) with (String "/" x).
      rewrite (replace_cons_other "~0" "~" "/") by reflexivity. rewrite IH. reflexivity.
    + change (String c EmptyString +:+ ?x) with (String c x).
      assert (Hc : forall d r, PyStr.startswith (String c r) (String "~" d) = false).
      { intros d r. cbn [PyStr.startswith].
        destruct (Ascii.eqb_spec "~" c); [congruence|reflexivity]. }
      rewrite (replace_cons_other "~1" "/" c) by apply Hc.
      rewrite (replace_cons_other "~0" "~" c) by apply Hc. rewrite IH. reflexivity.
Qed.

Lemma unescape_escape s : unescape (rfc6901_escape s) = s.
Proof. apply unescape_slash_of_escape. Qed.

Lemma split_escape s : PyStr.split "/" (rfc6901_escape s) = [rfc6901_escape s].
Proof.
  induction s as [|c s IH]; [reflexivity|]. cbn [rfc6901_escape].
  destruct (Ascii.eqb_spec c "~") as [->|Htilde].
  - change ("~0" +:+ ?x) with (String "~" (String "0" x)).
    cbn [PyStr.split]. rewrite IH. reflexivity.
  - destruct (Ascii.eqb_spec c "/") as [->|Hslash].
    + change ("~1" +:+ ?x) with (String "~" (String "1" x)).
      cbn [PyStr.split]. rewrite IH. reflexivity.
    + change (String c EmptyString +:+ ?x) with (String c x).
      cbn [PyStr.split]. destruct (Ascii.eqb_spec c "/"); [congruence|].
      rewrite IH. reflexivity.
Qed.

(** A key of the root is addressed by its escaped form. *)
Lemma resolve_escaped_key k items :
  resolve_ref_pointer (JStr ("#/" +:+ rfc6901_escape k)) (JDict items)
  = match Dict.get k items with
    | Some v => Ok v
    | None => Raise (KeyError k)
    end.
Proof.
  unfold resolve_ref_pointer.
  change (PyStr.startswith ("#/" +:+ rfc6901_escape k) "#/") with true.
  change (PyStr.drop 2 ("#/" +:+ rfc6901_escape k)) with (rfc6901_escape k).
  cbn [negb]. rewrite split_escape. cbn [walk_parts]. rewrite unescape_escape.
  destruct (Dict.get k items); reflexivity.
Qed.

(** C10. Unescaping order: a segment is unescaped by replacing [~1] with
    [/] and then [~0] with [~]; the segment [~01] addresses the key [~1]
    and the segment [~1] the key [/]; and, as RFC 6901 requires of the
    decoding, every key is read back from its escaped form, which the
    replacements in the other order do not achieve. *)
Theorem C10_unescape_order :
  (forall part, unescape part = PyStr.replace "~0" "~" (PyStr.replace "~1" "/" part))
  /\ unescape "~01" = "~1"
  /\ unescape "~1" = "/"
  /\ (forall v rest, resolve_ref_pointer (JStr "#/~01") (JDict (("~1", v) :: rest)) = Ok v)
  /\ (forall v rest, resolve_ref_pointer (JStr "#/~1") (JDict (("/", v) :: rest)) = Ok v)
  /\ (forall s, unescape (rfc6901_escape s) = s)
  /\ (forall k items,
        resolve_ref_pointer (JStr ("#/" +:+ rfc6901_escape k)) (JDict items)
        = match Dict.get k items with Some v => Ok v | None => Raise (KeyError k) end)
  /\ unescape_swapped (rfc6901_escape "~1") = "/".
Proof.
  repeat split; try reflexivity.
  - apply unescape_escape.
  - intros. apply resolve_escaped_key.
Qed.

(** ** Termination *)

Lemma json_size_elem x xs : x ∈ xs -> (json_size x < json_size (JList xs))%nat.
Proof.
  cbn [json_size]. induction 1 as [x xs|x y xs _ IH]; simpl; lia.
Qed.

Lemma json_size_value k v items :
  (k, v) ∈ items -> (json_size v < json_size (JDict items))%nat.
Proof.
  cbn [json_size]. intros Hin. apply (list_elem_of_fmap_2 snd) in Hin. cbn in Hin.
  pose proof (json_size_elem v (items.*2) Hin) as Hlt. cbn [json_size] in Hlt.
  change (map json_size (items.*2)) with (json_size <$> (snd <$> items)) in Hlt.
  rewrite <- list_fmap_compose in Hlt. exact Hlt.
Qed.

(** Every call either follows a reference, one level deeper, or walks
    into a child at the same depth. *)
Lemma calls_decrease root_doc c c' :
  calls root_doc c c' ->
  (c_depth c <= MAX_DEPTH) /\
  ((is_ref_node (c_obj c) = true /\ c_depth c' = c_depth c + 1)
   \/ (is_ref_node (c_obj c) = false /\ c_depth c' = c_depth c /\
       (json_size (c_obj c') < json_size (c_obj c))%nat)).
Proof.
  intros Hcall. apply calls_inv in Hcall as [Hdepth Hcases]. split; [assumption|].
  destruct Hcases as [(items & ref_path & resolved & Hobj & Hget & _ & _ & ->)
                     |[(items & k & v & Hobj & Hget & Hin & ->)
                      |(xs & i & x & Hobj & Hx & ->)]]; rewrite Hobj; cbn.
  - left. unfold Dict.mem. rewrite Hget. auto.
  - right. unfold Dict.mem. rewrite Hget. repeat split. apply (json_size_value k v items Hin).
  - right. repeat split. apply json_size_elem. eapply list_elem_of_lookup_2, Hx.
Qed.

Lemma calls_wf root_doc : well_founded (fun c' c => calls root_doc c c').
Proof.
  assert (Hacc : forall (n s : nat) c,
            Z.to_nat (MAX_DEPTH + 1 - c_depth c) = n -> json_size (c_obj c) = s ->
            Acc (fun c' c => calls root_doc c c') c).
  { induction n as [n IHn] using lt_wf_ind. induction s as [s IHs] using lt_wf_ind.
    intros c Hn Hs. constructor. intros c' Hcall.
    apply calls_decrease in Hcall as [Hdepth [[_ Hnext]|(_ & Hsame & Hsize)]].
    - eapply (IHn (Z.to_nat (MAX_DEPTH + 1 - c_depth c'))); [lia|reflexivity..].
    - eapply (IHs (json_size (c_obj c'))); [lia| |reflexivity]. rewrite Hsame. exact Hn. }
  intros c. eapply Hacc; reflexivity.
Qed.

(** C9. Termination: the calls that [expand_refs] makes are well founded,
    so every activation ends; a call either follows a reference, from a
    depth of at most 10 to that depth plus one, or walks from a dict or
    a list into one of its children, a smaller tree, at the same depth;
    [expand_refs] is the function that these calls compute; and on a
    document without references, however deeply nested, the guard never
    fires and the document is returned. *)
Theorem C9_termination :
  (forall root_doc, well_founded (fun c' c => calls root_doc c c'))
  /\ (forall root_doc c c',
        calls root_doc c c' ->
        (c_depth c <= MAX_DEPTH) /\
        ((is_ref_node (c_obj c) = true /\ c_depth c' = c_depth c + 1)
         \/ (is_ref_node (c_obj c) = false /\ c_depth c' = c_depth c /\
             (json_size (c_obj c') < json_size (c_obj c))%nat)))
  /\ (forall root_doc c, run root_doc c = assemble (run root_doc) (body root_doc c))
  /\ (forall obj root_doc path depth visited_paths,
        json_wf obj = true -> has_ref obj = false -> depth <= MAX_DEPTH ->
        expand_refs obj root_doc path depth visited_paths = obj).
Proof.
  split; [exact calls_wf|]. split; [exact calls_decrease|]. split; [exact run_body|].
  exact expand_refs_ref_free.
Qed.

Lemma C9_termination_witness :
  calls Samples.pet_doc
    (Call Samples.pet_ref "root" 0 ∅)
    (Call (JDict [("type", JStr "object"); ("description", JStr "override")])
          "root->#/components/schemas/Pet" 1 {["root:#/components/schemas/Pet"]})
  /\ (0 <= MAX_DEPTH)
  /\ is_ref_node Samples.pet_ref = true.
Proof.
  assert (H : calls Samples.pet_doc
                (Call Samples.pet_ref "root" 0 ∅)
                (Call (JDict [("type", JStr "object"); ("description", JStr "override")])
                   "root->#/components/schemas/Pet" 1 {["root:#/components/schemas/Pet"]})).
  { unfold calls. vm_compute body. cbn [subcalls]. apply list_elem_of_singleton.
    reflexivity. }
  split; [exact H|].
  destruct (proj1 (proj2 C9_termination) _ _ _ H) as [Hdepth _].
  split; [exact Hdepth|reflexivity].
Defined.

(** ** The cycle check *)

Lemma string_length_app (a b : string) :
  String.length (a +:+ b) = (String.length a + String.length b)%nat.
Proof.
  induction a as [|c a IH]; [reflexivity|].
  change (String c a +:+ b) with (String c (a +:+ b)).
  cbn [String.length Nat.add]. rewrite IH. reflexivity.
Qed.

Lemma tracking_key_length path ref_path :
  String.length (tracking_key path ref_path)
  = (String.length path + 1 + String.length (py_str ref_path))%nat.
Proof. unfold tracking_key. rewrite !string_length_app. cbn. lia. Qed.

Lemma ref_location_length path ref_path :
  String.length (ref_location path ref_path)
  = (String.length path + 2 + String.length (py_str ref_path))%nat.
Proof. unfold ref_location. rewrite !string_length_app. cbn. lia. Qed.

Lemma key_location_length path key :
  (String.length path <= String.length (key_location path key))%nat.
Proof. unfold key_location. rewrite !string_length_app. lia. Qed.

Lemma index_location_length path i :
  (String.length path <= String.length (index_location path i))%nat.
Proof. unfold index_location. rewrite !string_length_app. lia. Qed.

(** Locations only grow, and a tracking key is shorter than the location
    of the call it is handed to. *)
Lemma visited_within_path_step root_doc c c' :
  calls root_doc c c' -> visited_within_path c -> visited_within_path c'.
Proof.
  intros Hcall Hinv. apply calls_inv in Hcall as [_ Hcases].
  destruct c as [obj path depth visited_paths]. unfold visited_within_path in *.
  cbn [c_obj c_path c_depth c_visited] in *.
  destruct Hcases as [(items & ref_path & resolved & _ & _ & _ & _ & ->)
                     |[(items & k & v & _ & _ & _ & ->)|(xs & i & x & _ & _ & ->)]];
    cbn [c_path c_visited]; intros key Hkey.
  - rewrite ref_location_length. apply elem_of_union in Hkey as [Hkey|Hkey].
    + apply elem_of_singleton in Hkey as ->. rewrite tracking_key_length. lia.
    + specialize (Hinv key Hkey). lia.
  - specialize (Hinv key Hkey). pose proof (key_location_length path k). lia.
  - specialize (Hinv key Hkey). pose proof (index_location_length path i). lia.
Qed.

Lemma reachable_visited_within_path doc c : reachable doc c -> visited_within_path c.
Proof.
  unfold reachable. intros Hreach. apply rtc_nsteps in Hreach as [n Hreach].
  revert c Hreach. induction n as [|n IH]; intros c Hreach.
  - apply nsteps_once_inv in Hreach || inversion Hreach; subst.
    intros key Hkey. apply elem_of_empty in Hkey as [].
  - apply nsteps_inv_r in Hreach as (c0 & Hreach & Hcall).
    eapply visited_within_path_step; [exact Hcall|]. apply IH, Hreach.
Qed.

Lemma tracking_key_fresh c ref_path :
  visited_within_path c -> tracking_key (c_path c) ref_path ∉ c_visited c.
Proof.
  intros Hinv Hin. specialize (Hinv _ Hin). rewrite tracking_key_length in Hinv. lia.
Qed.

(** C3. The cycle branch is dead: in every activation that the call
    [expand_refs(doc, doc)] reaches, the tracking key of a reference node
    is not in the visited set, since the keys of the set are no longer
    than the location and the tracking key is longer; so no activation
    returns the placeholder "Circular reference". *)
Theorem C3_cycle_branch_unreachable (doc : json) (c : call) :
  reachable doc c ->
  (forall items ref_path,
     c_obj c = JDict items -> Dict.get "$ref" items = Some ref_path ->
     bool_decide (tracking_key (c_path c) ref_path ∈ c_visited c) = false)
  /\ (forall ref_path, body doc c <> Return (circular_placeholder ref_path)).
Proof.
  intros Hreach. apply reachable_visited_within_path in Hreach.
  assert (Hfresh : forall ref_path,
            bool_decide (tracking_key (c_path c) ref_path ∈ c_visited c) = false).
  { intros ref_path. apply bool_decide_eq_false_2, tracking_key_fresh, Hreach. }
  split; [intros; apply Hfresh|]. intros ref_path.
  destruct c as [obj path depth visited_paths]. cbn [c_path c_visited] in Hfresh.
  unfold body. destruct (MAX_DEPTH <? depth); [discriminate|].
  destruct obj as [| | | | |xs|items]; try discriminate.
  destruct (Dict.get "$ref" items) as [ref|]; [|discriminate].
  cbn zeta. rewrite Hfresh.
  destruct (resolve_ref_pointer ref doc); discriminate.
Qed.

Lemma C3_cycle_branch_unreachable_witness :
  reachable Samples.self_doc Samples.self_second_visit
  /\ bool_decide
       (tracking_key "root.components.schemas.A->#/components/schemas/A"
          (JStr "#/components/schemas/A")
        ∈ ({["root.components.schemas.A:#/components/schemas/A"]} : gset string)) = false.
Proof.
  assert (H : reachable Samples.self_doc Samples.self_second_visit).
  { apply (follow_first_rtc 4). vm_compute. reflexivity. }
  split; [exact H|].
  exact (proj1 (C3_cycle_branch_unreachable _ _ H) _ _ eq_refl eq_refl).
Defined.

(** ** The store: what a call leaves unchanged *)

Section store_frame.
Import Store.
Implicit Types (h : heap) (n y l : nat) (v x : value).

Lemma unchanged_below_refl n h : unchanged_below n h h.
Proof. split; [lia|reflexivity]. Qed.

Lemma unchanged_below_trans n h1 h2 h3 :
  unchanged_below n h1 h2 -> unchanged_below n h2 h3 -> unchanged_below n h1 h3.
Proof.
  intros [Hlen12 H12] [Hlen23 H23]. split; [lia|].
  intros l Hl. rewrite H23, H12 by assumption. reflexivity.
Qed.

Lemma unchanged_below_alloc n h o :
  (n <= length h)%nat -> unchanged_below n h (alloc o h).2.
Proof.
  intros Hn. split; cbn.
  - rewrite length_app. lia.
  - intros l Hl. apply lookup_app_l. lia.
Qed.

Lemma unchanged_below_insert n h y o :
  (n <= y)%nat -> unchanged_below n h (<[y := o]> h).
Proof.
  intros Hn. split.
  - rewrite length_insert. lia.
  - intros l Hl. apply list_lookup_insert_ne. lia.
Qed.

Lemma setitem_frame n y k v h h' :
  setitem y k v h = Some h' -> (n <= y)%nat -> unchanged_below n h h'.
Proof.
  unfold setitem. destruct (h !! y) as [[items|xs]|]; intros [= <-] Hn.
  apply unchanged_below_insert, Hn.
Qed.

Lemma append_frame n y v h h' :
  append y v h = Some h' -> (n <= y)%nat -> unchanged_below n h h'.
Proof.
  unfold append. destruct (h !! y) as [[items|xs]|]; intros [= <-] Hn.
  apply unchanged_below_insert, Hn.
Qed.

Lemma copy_items_frame copy y items memo h memo' h' n :
  (forall v memo h v' memo' h' n,
     copy v memo h = Some (v', memo', h') -> (n <= length h)%nat -> unchanged_below n h h') ->
  copy_items copy y items memo h = Some (memo', h') ->
  (n <= y)%nat -> (n <= length h)%nat -> unchanged_below n h h'.
Proof.
  intros Hcopy. revert memo h. induction items as [|[k v] items IH]; intros memo h Hrun Hy Hn.
  - injection Hrun as <- <-. apply unchanged_below_refl.
  - cbn [copy_items] in Hrun.
    destruct (copy v memo h) as [[[v1 memo1] h1]|] eqn:Hv; [|discriminate]. cbn in Hrun.
    destruct (setitem y k v1 h1) as [h2|] eqn:Hset; [|discriminate]. cbn in Hrun.
    pose proof (Hcopy _ _ _ _ _ _ n Hv Hn) as H1.
    pose proof (setitem_frame n _ _ _ _ _ Hset Hy) as H2.
    eapply unchanged_below_trans; [exact H1|]. eapply unchanged_below_trans; [exact H2|].
    apply (IH _ _ Hrun Hy). destruct H1, H2. lia.
Qed.

Lemma copy_elems_frame copy y xs memo h memo' h' n :
  (forall v memo h v' memo' h' n,
     copy v memo h = Some (v', memo', h') -> (n <= length h)%nat -> unchanged_below n h h') ->
  copy_elems copy y xs memo h = Some (memo', h') ->
  (n <= y)%nat -> (n <= length h)%nat -> unchanged_below n h h'.
Proof.
  intros Hcopy. revert memo h. induction xs as [|x xs IH]; intros memo h Hrun Hy Hn.
  - injection Hrun as <- <-. apply unchanged_below_refl.
  - cbn [copy_elems] in Hrun.
    destruct (copy x memo h) as [[[x1 memo1] h1]|] eqn:Hx; [|discriminate]. cbn in Hrun.
    destruct (append y x1 h1) as [h2|] eqn:Happ; [|discriminate]. cbn in Hrun.
    pose proof (Hcopy _ _ _ _ _ _ n Hx Hn) as H1.
    pose proof (append_frame n _ _ _ _ Happ Hy) as H2.
    eapply unchanged_below_trans; [exact H1|]. eapply unchanged_below_trans; [exact H2|].
    apply (IH _ _ Hrun Hy). destruct H1, H2. lia.
Qed.

(** [deepcopy] writes only into the objects that it creates. *)
Lemma deepcopy_frame fuel x memo h x' memo' h' n :
  deepcopy fuel x memo h = Some (x', memo', h') ->
  (n <= length h)%nat -> unchanged_below n h h'.
Proof.
  revert x memo h x' memo' h' n.
  induction fuel as [|fuel IH]; intros x memo h x' memo' h' n Hrun Hn; [discriminate|].
  cbn [deepcopy] in Hrun.
  destruct x as [| | | | |l]; try (injection Hrun as <- <- <-; apply unchanged_below_refl).
  destruct (memo !! l) as [y|]; [injection Hrun as <- <- <-; apply unchanged_below_refl|].
  destruct (h !! l) as [[items|xs]|]; [| |discriminate].
  - destruct (copy_items _ _ _ _ _) as [[memo1 h1]|] eqn:Hitems; [|discriminate].
    injection Hrun as <- <- <-.
    eapply unchanged_below_trans; [apply (unchanged_below_alloc n h (ODict []) Hn)|].
    eapply copy_items_frame; [exact IH|exact Hitems|exact Hn|].
    cbn. rewrite length_app. lia.
  - destruct (copy_elems _ _ _ _ _) as [[memo1 h1]|] eqn:Helems; [|discriminate].
    injection Hrun as <- <- <-.
    eapply unchanged_below_trans; [apply (unchanged_below_alloc n h (OList []) Hn)|].
    eapply copy_elems_frame; [exact IH|exact Helems|exact Hn|].
    cbn. rewrite length_app. lia.
Qed.

Lemma merge_props_frame resolved props h v h' n :
  merge_props resolved props h = Some (v, h') ->
  (n <= length h)%nat -> unchanged_below n h h'.
Proof.
  unfold merge_props. intros Hrun Hn.
  destruct props as [|kv props]; [injection Hrun as <- <-; apply unchanged_below_refl|].
  destruct resolved as [| | | | |l]; try (injection Hrun as <- <-; apply unchanged_below_refl).
  destruct (h !! l) as [[target|xs]|]; [| |discriminate].
  - injection Hrun as <- <-. apply (unchanged_below_alloc n h _ Hn).
  - injection Hrun as <- <-. apply unchanged_below_refl.
Qed.

Lemma expand_items_frame expand path items h kvs h' n :
  (forall v path h v' h' n,
     expand v path h = Some (v', h') -> (n <= length h)%nat -> unchanged_below n h h') ->
  expand_items expand path items h = Some (kvs, h') ->
  (n <= length h)%nat -> unchanged_below n h h'.
Proof.
  intros Hexpand. revert h kvs. induction items as [|[k v] items IH]; intros h kvs Hrun Hn.
  - injection Hrun as <- <-. apply unchanged_below_refl.
  - cbn [expand_items] in Hrun.
    destruct (expand v (key_location path k) h) as [[v1 h1]|] eqn:Hv; [|discriminate].
    cbn in Hrun.
    destruct (expand_items expand path items h1) as [[kvs1 h2]|] eqn:Hrest; [|discriminate].
    injection Hrun as <- <-.
    pose proof (Hexpand _ _ _ _ _ n Hv Hn) as H1.
    eapply unchanged_below_trans; [exact H1|]. apply (IH _ _ Hrest). destruct H1. lia.
Qed.

Lemma expand_elems_frame expand path i xs h vs h' n :
  (forall v path h v' h' n,
     expand v path h = Some (v', h') -> (n <= length h)%nat -> unchanged_below n h h') ->
  expand_elems expand path i xs h = Some (vs, h') ->
  (n <= length h)%nat -> unchanged_below n h h'.
Proof.
  intros Hexpand. revert i h vs. induction xs as [|x xs IH]; intros i h vs Hrun Hn.
  - injection Hrun as <- <-. apply unchanged_below_refl.
  - cbn [expand_elems] in Hrun.
    destruct (expand x (index_location path i) h) as [[v1 h1]|] eqn:Hx; [|discriminate].
    cbn in Hrun.
    destruct (expand_elems expand path (S i) xs h1) as [[vs1 h2]|] eqn:Hrest; [|discriminate].
    injection Hrun as <- <-.
    pose proof (Hexpand _ _ _ _ _ n Hx Hn) as H1.
    eapply unchanged_below_trans; [exact H1|]. apply (IH _ _ _ Hrest). destruct H1. lia.
Qed.

(** [expand_refs] changes no object that was there before the call, and
    the value it returns for a dict or a list is a new object. *)
Lemma expand_refs_frame fuel obj root_doc path depth visited_paths h v h' n :
  Store.expand_refs fuel obj root_doc path depth visited_paths h = Some (v, h') ->
  (n <= length h)%nat ->
  unchanged_below n h h' /\ (forall l, v = VRef l -> (n <= l)%nat).
Proof.
  revert obj path depth visited_paths h v h' n.
  induction fuel as [|fuel IH]; intros obj path depth visited_paths h v h' n Hrun Hn;
    [discriminate|].
  cbn [Store.expand_refs] in Hrun.
  assert (Hnew : forall description v h',
            Some (new_placeholder description h) = Some (v, h') ->
            unchanged_below n h h' /\ (forall l, v = VRef l -> (n <= l)%nat)).
  { intros description v0 h0 [= <- <-]. split; [apply (unchanged_below_alloc n h _ Hn)|].
    intros l [= <-]. exact Hn. }
  destruct (MAX_DEPTH <? depth); [eapply Hnew, Hrun|].
  destruct obj as [| | | | |l];
    try (injection Hrun as <- <-; split; [apply unchanged_below_refl|discriminate]).
  destruct (h !! l) as [[items|xs]|]; [| |discriminate].
  - destruct (Dict.get "$ref" items) as [ref_value|].
    + destruct (reify fuel h ref_value) as [ref_path|]; [|discriminate]. cbn in Hrun.
      case_bool_decide; [eapply Hnew, Hrun|].
      destruct (Store.resolve_ref_pointer ref_value root_doc h) as [[resolved|e]|];
        [| |discriminate]; cbn in Hrun; [|eapply Hnew, Hrun].
      destruct (deepcopy fuel resolved ∅ h) as [[[copied memo] h1]|] eqn:Hcopy; [|discriminate].
      cbn in Hrun.
      destruct (merge_props copied (other_props items) (h1 ++ [ODict (other_props items)]))
        as [[merged h3]|] eqn:Hmerge; [|discriminate]. cbn in Hrun.
      pose proof (deepcopy_frame _ _ _ _ _ _ _ n Hcopy Hn) as H1.
      assert (Hn1 : (n <= length h1)%nat) by (destruct H1; lia).
      pose proof (unchanged_below_alloc n h1 (ODict (other_props items)) Hn1) as H2.
      cbn in H2.
      assert (Hn2 : (n <= length (h1 ++ [ODict (other_props items)]))%nat)
        by (destruct H2; lia).
      pose proof (merge_props_frame _ _ _ _ _ n Hmerge Hn2) as H3.
      assert (Hn3 : (n <= length h3)%nat) by (destruct H3; lia).
      destruct (IH _ _ _ _ _ _ _ n Hrun Hn3) as [H4 Hfresh]. split; [|exact Hfresh].
      eauto using unchanged_below_trans.
    + destruct (expand_items _ path items h) as [[kvs h1]|] eqn:Hitems; [|discriminate].
      injection Hrun as <- <-.
      assert (H1 : unchanged_below n h h1).
      { eapply expand_items_frame; [|exact Hitems|exact Hn].
        intros v0 path0 h0 v0' h0' n0 Hv0 Hn0. apply (IH _ _ _ _ _ _ _ n0 Hv0 Hn0). }
      assert (Hn1 : (n <= length h1)%nat) by (destruct H1; lia). split.
      * eapply unchanged_below_trans; [exact H1|]. apply (unchanged_below_alloc n h1 _ Hn1).
      * intros l0 [= <-]. exact Hn1.
  - destruct (expand_elems _ path 0 xs h) as [[vs h1]|] eqn:Helems; [|discriminate].
    injection Hrun as <- <-.
    assert (H1 : unchanged_below n h h1).
    { eapply expand_elems_frame; [|exact Helems|exact Hn].
      intros v0 path0 h0 v0' h0' n0 Hv0 Hn0. apply (IH _ _ _ _ _ _ _ n0 Hv0 Hn0). }
    assert (Hn1 : (n <= length h1)%nat) by (destruct H1; lia). split.
    + eapply unchanged_below_trans; [exact H1|]. apply (unchanged_below_alloc n h1 _ Hn1).
    + intros l0 [= <-]. exact Hn1.
Qed.

(** A document read from a store is read the same from a store with the
    same objects. *)
Lemma reify_frame fuel h h' v doc :
  (forall l o, h !! l = Some o -> h' !! l = Some o) ->
  reify fuel h v = Some doc -> reify fuel h' v = Some doc.
Proof.
  intros Hframe. revert v doc. induction fuel as [|fuel IH]; intros v doc Hv;
    destruct v as [| | | | |l]; try exact Hv; try discriminate.
  cbn [reify] in Hv |- *. destruct (h !! l) as [o|] eqn:Hl; [|discriminate].
  rewrite (Hframe l o Hl). destruct o as [items|xs].
  - destruct (mapM _ items) as [kvs|] eqn:Hitems; [|discriminate]. injection Hv as <-.
    apply mapM_Some in Hitems.
    assert (Hitems' : mapM (fun kv => pair kv.1 <$> reify fuel h' kv.2) items = Some kvs).
    { apply mapM_Some. eapply Forall2_impl; [exact Hitems|]. intros [k x] ky Hx. cbn in *.
      destruct (reify fuel h x) as [y|] eqn:Hy; [|discriminate].
      rewrite (IH x y Hy). exact Hx. }
    rewrite Hitems'. reflexivity.
  - destruct (mapM _ xs) as [ys|] eqn:Hxs; [|discriminate]. injection Hv as <-.
    apply mapM_Some in Hxs.
    assert (Hxs' : mapM (reify fuel h') xs = Some ys).
    { apply mapM_Some. eapply Forall2_impl; [exact Hxs|]. intros x y Hy. apply IH, Hy. }
    rewrite Hxs'. reflexivity.
Qed.

End store_frame.

(** ** The pruner *)

Lemma dict_get_remove_ne {A} k k' (d : Dict.t A) :
  k <> k' -> Dict.get k (Dict.remove k' d) = Dict.get k d.
Proof.
  intros Hne. induction d as [|[k0 v0] d IH]; [reflexivity|]. cbn.
  destruct (String.eqb_spec k' k0) as [->|Hk0]; cbn.
  - destruct (String.eqb_spec k k0); [congruence|reflexivity].
  - rewrite IH. reflexivity.
Qed.

Lemma dict_get_remove {A} k (d : Dict.t A) :
  NoDup (Dict.keys d) -> Dict.get k (Dict.remove k d) = None.
Proof.
  unfold Dict.keys. induction d as [|[k0 v0] d IH]; [reflexivity|]. cbn.
  rewrite NoDup_cons. intros [Hfresh Hnd].
  destruct (String.eqb_spec k k0) as [->|Hne]; cbn.
  - apply dict_get_None, Hfresh.
  - destruct (String.eqb_spec k k0); [congruence|]. apply IH, Hnd.
Qed.

(** After the pruner there is no entry ["components"], and every other
    entry is the one of the expanded document. *)
Lemma remove_unused_components_spec doc :
  NoDup (Dict.keys doc) ->
  Dict.get "components" (remove_unused_components doc) = None
  /\ forall k, k <> "components" ->
       Dict.get k (remove_unused_components doc) = Dict.get k doc.
Proof.
  intros Hnd. unfold remove_unused_components, Dict.mem.
  destruct (Dict.get "components" doc) eqn:Hget.
  - split; [apply dict_get_remove, Hnd|]. intros k Hk. apply dict_get_remove_ne, Hk.
  - split; [exact Hget|reflexivity].
Qed.

Section store_process.
Import Store.

(** The pruner changes the expanded document in place, and the expanded
    document is a new object: the document that was loaded is untouched
    by the two steps of [process_file]. *)
Lemma process_frame fuel doc h v h' :
  process fuel doc h = Some (v, h') ->
  forall l o, h !! l = Some o -> h' !! l = Some o.
Proof.
  unfold process. intros Hrun.
  destruct (Store.expand_refs fuel doc doc "root" 0 ∅ h) as [[expanded h1]|] eqn:Hexp;
    [|discriminate]. cbn in Hrun.
  destruct (expand_refs_frame _ _ _ _ _ _ _ _ _ (length h) Hexp (le_n _)) as [[Hlen Hsame] Hnew].
  intros l o Hl. pose proof (lookup_lt_Some _ _ _ Hl) as Hlt.
  unfold Store.remove_unused_components in Hrun.
  destruct expanded as [| | | | |y]; try discriminate. specialize (Hnew y eq_refl).
  destruct (h1 !! y) as [[items|xs]|]; try discriminate.
  destruct (Dict.mem "components" items).
  - unfold delitem in Hrun. destruct (h1 !! y) as [[items'|xs]|]; try discriminate.
    injection Hrun as <- <-. rewrite list_lookup_insert_ne by lia.
    rewrite Hsame by exact Hlt. exact Hl.
  - injection Hrun as <- <-. rewrite Hsame by exact Hlt. exact Hl.
Qed.

End store_process.

(** C8. The root is never mutated: when [expand_refs] returns, every
    object that was in the store before the call is the object it was,
    so the root document reads as the same document; and a dict or a
    list that is returned is an object created during the call. *)
Theorem C8_root_not_mutated fuel obj root_doc path depth visited_paths h v h' :
  Store.expand_refs fuel obj root_doc path depth visited_paths h = Some (v, h') ->
  (forall l o, h !! l = Some o -> h' !! l = Some o)
  /\ (forall fuel' doc,
        Store.reify fuel' h root_doc = Some doc -> Store.reify fuel' h' root_doc = Some doc)
  /\ (forall l, v = Store.VRef l -> (length h <= l)%nat).
Proof.
  intros Hrun.
  destruct (expand_refs_frame _ _ _ _ _ _ _ _ _ (length h) Hrun (le_n _)) as [[_ Hsame] Hnew].
  assert (Hkeep : forall l o, h !! l = Some o -> h' !! l = Some o).
  { intros l o Hl. rewrite Hsame; [exact Hl|]. eapply lookup_lt_Some, Hl. }
  split; [exact Hkeep|]. split; [|exact Hnew].
  intros fuel' doc. apply reify_frame, Hkeep.
Qed.

Lemma C8_root_not_mutated_witness :
  (Store.expand_refs 40 StoreSamples.pet_loaded.1 StoreSamples.pet_loaded.1 "root" 0 ∅
     StoreSamples.pet_loaded.2 = Some StoreSamples.pet_expanded)
  /\ (Store.reify 40 StoreSamples.pet_expanded.2 StoreSamples.pet_loaded.1
      = Some Samples.pet_doc).
Proof.
  assert (H : Store.expand_refs 40 StoreSamples.pet_loaded.1 StoreSamples.pet_loaded.1 "root" 0 ∅
                StoreSamples.pet_loaded.2 = Some StoreSamples.pet_expanded)
    by (vm_compute; reflexivity).
  split; [exact H|].
  refine (proj1 (proj2 (C8_root_not_mutated 40%nat _ _ _ _ _ _
                          StoreSamples.pet_expanded.1 StoreSamples.pet_expanded.2 H))
            40%nat _ _).
  vm_compute. reflexivity.
Defined.

(** On the sample documents the store model and the tree model agree. *)
Example store_agrees_on_samples :
  StoreSamples.expand_loaded 40 Samples.pet_doc = Some (expand_document Samples.pet_doc)
  /\ StoreSamples.expand_loaded 40 Samples.missing_doc
     = Some (expand_document Samples.missing_doc)
  /\ StoreSamples.expand_loaded 40 Samples.self_doc = Some (expand_document Samples.self_doc)
  /\ StoreSamples.expand_loaded 40 (Samples.chain_doc 15)
     = Some (expand_document (Samples.chain_doc 15))
  /\ StoreSamples.expand_loaded 40 Samples.plain = Some Samples.plain.
Proof. repeat split; vm_compute; reflexivity. Qed.

(** ** Decimal strings *)

Lemma string_app_assoc (a b c : string) : (a +:+ b) +:+ c = a +:+ (b +:+ c).
Proof.
  induction a as [|x a IH]; [reflexivity|].
  change ((String x a +:+ b) +:+ c) with (String x ((a +:+ b) +:+ c)).
  rewrite IH. reflexivity.
Qed.

Lemma string_app_nil_r (a : string) : a +:+ "" = a.
Proof.
  induction a as [|x a IH]; [reflexivity|].
  change (String x a +:+ "") with (String x (a +:+ "")). rewrite IH. reflexivity.
Qed.

Lemma all_chars_app p a b : all_chars p (a +:+ b) = all_chars p a && all_chars p b.
Proof.
  induction a as [|x a IH]; [reflexivity|].
  change (String x a +:+ b) with (String x (a +:+ b)). cbn [all_chars].
  rewrite IH, andb_assoc. reflexivity.
Qed.

Lemma rev_app_app (s t u : string) :
  String.rev_app (String.rev_app s t) u = String.rev_app t (s +:+ u).
Proof.
  revert t. induction s as [|c s IH]; intros t; [reflexivity|].
  cbn [String.rev_app]. rewrite IH. reflexivity.
Qed.

Lemma string_rev_involutive (s : string) : String.rev (String.rev s) = s.
Proof. unfold String.rev. rewrite rev_app_app. cbn. apply string_app_nil_r. Qed.

Lemma all_chars_rev_app p s t :
  all_chars p (String.rev_app s t) = all_chars p s && all_chars p t.
Proof.
  revert t. induction s as [|c s IH]; intros t; [reflexivity|].
  cbn [String.rev_app all_chars]. rewrite IH. cbn [all_chars].
  destruct (p c), (all_chars p s); reflexivity.
Qed.

Lemma all_chars_rev p s : all_chars p (String.rev s) = all_chars p s.
Proof. unfold String.rev. rewrite all_chars_rev_app. cbn. apply andb_true_r. Qed.

Lemma is_digit_not_space c : is_digit c = true -> PyStr.is_space c = false.
Proof.
  unfold is_digit, PyStr.digit_value, PyStr.is_space.
  destruct (Nat.leb_spec 48 (nat_of_ascii c)), (Nat.leb_spec (nat_of_ascii c) 57);
    cbn [andb]; try discriminate. intros _.
  destruct (Nat.leb_spec (nat_of_ascii c) 13); [lia|].
  destruct (Nat.eqb_spec (nat_of_ascii c) 32); [lia|].
  rewrite andb_false_r. reflexivity.
Qed.

Lemma lstrip_digits s : all_chars is_digit s = true -> PyStr.lstrip s = s.
Proof.
  destruct s as [|c s]; [reflexivity|]. cbn [all_chars PyStr.lstrip].
  intros [Hc _]%andb_true_iff. rewrite (is_digit_not_space c Hc). reflexivity.
Qed.

Lemma rstrip_digits s : all_chars is_digit s = true -> PyStr.rstrip s = s.
Proof.
  intros Hs. unfold PyStr.rstrip. rewrite lstrip_digits by (rewrite all_chars_rev; exact Hs).
  apply string_rev_involutive.
Qed.

Lemma digits_all_digits acc after s :
  all_chars is_digit s = true -> s <> "" ->
  PyStr.digits acc after s = Some (digits_value acc s).
Proof.
  revert acc after. induction s as [|c s IH]; intros acc after Hs Hne; [congruence|].
  cbn [all_chars] in Hs. apply andb_true_iff in Hs as [Hc Hs].
  cbn [PyStr.digits digits_value]. unfold is_digit in Hc.
  destruct (PyStr.digit_value c) as [d|]; [|discriminate].
  destruct s as [|c' s']; [reflexivity|]. apply IH; [exact Hs|discriminate].
Qed.

Lemma digits_value_app acc a b :
  digits_value acc (a +:+ b) = digits_value (digits_value acc a) b.
Proof.
  revert acc. induction a as [|x a IH]; intros acc; [reflexivity|].
  change (String x a +:+ b) with (String x (a +:+ b)). cbn [digits_value]. apply IH.
Qed.

Lemma pretty_N_char_digit x :
  (x < 10)%N ->
  PyStr.digit_value (pretty_N_char x) = Some (Z.of_N x).
Proof.
  intros Hx.
  assert (x = 0 \/ x = 1 \/ x = 2 \/ x = 3 \/ x = 4 \/ x = 5 \/ x = 6 \/ x = 7
          \/ x = 8 \/ x = 9)%N as Hcases by lia.
  repeat destruct Hcases as [->|Hcases]; try subst x; reflexivity.
Qed.

Lemma pretty_N_go_app x s : pretty_N_go x s = pretty_N_go x "" +:+ s.
Proof.
  revert s. induction (N.lt_wf_0 x) as [x _ IH]; intros s.
  destruct (N.eq_dec x 0%N) as [->|Hx]; [reflexivity|].
  rewrite (pretty_N_go_step x s), (pretty_N_go_step x "") by lia.
  rewrite IH by (apply N.div_lt; lia).
  rewrite (IH (x `div` 10)%N) with (s := String _ "") by (apply N.div_lt; lia).
  rewrite string_app_assoc. reflexivity.
Qed.

Lemma pretty_N_go_digits x : all_chars is_digit (pretty_N_go x "") = true.
Proof.
  induction (N.lt_wf_0 x) as [x _ IH].
  destruct (N.eq_dec x 0%N) as [->|Hx]; [reflexivity|].
  rewrite pretty_N_go_step, pretty_N_go_app by lia.
  rewrite all_chars_app, IH by (apply N.div_lt; lia). cbn [all_chars andb].
  unfold is_digit. rewrite pretty_N_char_digit by (apply N.mod_lt; lia). reflexivity.
Qed.

Lemma pretty_N_go_value x : digits_value 0 (pretty_N_go x "") = Z.of_N x.
Proof.
  induction (N.lt_wf_0 x) as [x _ IH].
  destruct (N.eq_dec x 0%N) as [->|Hx]; [reflexivity|].
  rewrite pretty_N_go_step, pretty_N_go_app by lia.
  rewrite digits_value_app, IH by (apply N.div_lt; lia). cbn [digits_value].
  rewrite pretty_N_char_digit by (apply N.mod_lt; lia).
  rewrite (N.div_mod x 10%N) at 3 by lia. lia.
Qed.

Lemma pretty_N_go_nonempty x : (0 < x)%N -> pretty_N_go x "" <> "".
Proof.
  intros Hx. rewrite pretty_N_go_step, pretty_N_go_app by exact Hx.
  destruct (pretty_N_go (x `div` 10) ""); discriminate.
Qed.

Lemma pretty_N_digits (x : N) :
  all_chars is_digit (pretty x) = true /\ pretty x <> ""
  /\ digits_value 0 (pretty x) = Z.of_N x.
Proof.
  unfold pretty, pretty_N. destruct (decide (x = 0%N)) as [->|Hx].
  - repeat split. discriminate.
  - split; [apply pretty_N_go_digits|]. split; [apply pretty_N_go_nonempty; lia|].
    apply pretty_N_go_value.
Qed.

(** [int(str(n))] is [n]. *)
Lemma int_pretty_N (x : N) : PyStr.int (pretty x) = Ok (Z.of_N x).
Proof.
  destruct (pretty_N_digits x) as (Hdigits & Hne & Hvalue). unfold PyStr.int.
  rewrite lstrip_digits, rstrip_digits by exact Hdigits. cbn zeta.
  assert (Hparse : PyStr.digits 0 false (pretty x) = Some (Z.of_N x))
    by (rewrite digits_all_digits, Hvalue by assumption; reflexivity).
  destruct (pretty x) as [|c s] eqn:Hs; [congruence|].
  cbn [all_chars] in Hdigits. apply andb_true_iff in Hdigits as [Hc _].
  destruct (Ascii.eqb_spec c "-") as [->|Hminus]; [discriminate|].
  destruct (Ascii.eqb_spec c "+") as [->|Hplus]; [discriminate|].
  assert (Hbranch : match String c s with
                    | String "-" r => Z.opp <$> PyStr.digits 0 false r
                    | String "+" r => PyStr.digits 0 false r
                    | _ => PyStr.digits 0 false (String c s)
                    end = PyStr.digits 0 false (String c s)).
  { destruct c as [[] [] [] [] [] [] [] []]; try reflexivity; congruence. }
  rewrite Hbranch, Hparse. reflexivity.
Qed.

Lemma int_pretty_nat (n : nat) : PyStr.int (pretty n) = Ok (Z.of_nat n).
Proof.
  unfold pretty, pretty_nat. rewrite int_pretty_N. f_equal. lia.
Qed.

Lemma all_chars_impl (p q : ascii -> bool) s :
  (forall c, p c = true -> q c = true) -> all_chars p s = true -> all_chars q s = true.
Proof.
  intros Hpq. induction s as [|c s IH]; [reflexivity|]. cbn [all_chars].
  intros [Hc Hs]%andb_true_iff. rewrite (Hpq c Hc), IH by exact Hs. reflexivity.
Qed.

Lemma lstrip_not_space s : all_chars not_space s = true -> PyStr.lstrip s = s.
Proof.
  destruct s as [|c s]; [reflexivity|]. cbn [all_chars PyStr.lstrip]. unfold not_space.
  intros [Hc _]%andb_true_iff. destruct (PyStr.is_space c); [discriminate|reflexivity].
Qed.

Lemma rstrip_not_space s : all_chars not_space s = true -> PyStr.rstrip s = s.
Proof.
  intros Hs. unfold PyStr.rstrip.
  rewrite lstrip_not_space by (rewrite all_chars_rev; exact Hs).
  apply string_rev_involutive.
Qed.

(** [int("-" + str(n))] is [-n]. *)
Lemma int_minus_pretty_nat (n : nat) : PyStr.int ("-" +:+ pretty n) = Ok (- Z.of_nat n).
Proof.
  unfold pretty, pretty_nat. destruct (pretty_N_digits (N.of_nat n)) as (Hdigits & Hne & Hvalue).
  assert (Hns : all_chars not_space ("-" +:+ pretty (N.of_nat n)) = true).
  { change ("-" +:+ ?s) with (String "-" s). cbn [all_chars]. rewrite andb_true_iff. split;
      [reflexivity|]. eapply all_chars_impl; [|exact Hdigits].
    intros c Hc. unfold not_space. rewrite (is_digit_not_space c Hc). reflexivity. }
  unfold PyStr.int. rewrite lstrip_not_space, rstrip_not_space by exact Hns. cbn zeta.
  change ("-" +:+ ?s) with (String "-" s). cbv iota beta.
  rewrite digits_all_digits, Hvalue by assumption. cbn. f_equal. lia.
Qed.

(** ** Splitting and joining pointers *)

Lemma split_nonempty sep s : PyStr.split sep s <> [].
Proof.
  destruct s as [|c s]; cbn [PyStr.split]; [discriminate|].
  destruct (Ascii.eqb c sep); [discriminate|]. destruct (PyStr.split sep s); discriminate.
Qed.

Lemma split_no_sep sep s : PyStr.contains sep s = false -> PyStr.split sep s = [s].
Proof.
  induction s as [|c s IH]; [reflexivity|]. cbn [PyStr.contains PyStr.split].
  intros [Hc Hs]%orb_false_iff. rewrite Ascii.eqb_sym, Hc, (IH Hs). reflexivity.
Qed.

(** [(a + sep + b).split(sep)] is [a.split(sep) + b.split(sep)]. *)
Lemma split_app_sep sep a b :
  PyStr.split sep (a +:+ String sep b) = PyStr.split sep a ++ PyStr.split sep b.
Proof.
  induction a as [|c a IH].
  - change ("" +:+ String sep b) with (String sep b). cbn [PyStr.split].
    rewrite Ascii.eqb_refl. reflexivity.
  - change (String c a +:+ String sep b) with (String c (a +:+ String sep b)).
    cbn [PyStr.split]. rewrite IH. destruct (Ascii.eqb c sep); [reflexivity|].
    destruct (PyStr.split sep a) as [|h t] eqn:Ha; [|reflexivity].
    exfalso. apply (split_nonempty sep a Ha).
Qed.

Lemma split_join sep (parts : list string) :
  parts <> [] -> Forall (fun t => PyStr.contains sep t = false) parts ->
  PyStr.split sep (PyStr.join (String sep "") parts) = parts.
Proof.
  induction parts as [|t parts IH]; [congruence|]. intros _ Hparts.
  apply Forall_cons in Hparts as [Ht Hparts]. destruct parts as [|t' parts].
  - cbn [PyStr.join]. apply split_no_sep, Ht.
  - change (PyStr.join (String sep "") (t :: t' :: parts))
      with (t +:+ String sep "" +:+ PyStr.join (String sep "") (t' :: parts)).
    change (String sep "" +:+ ?s) with (String sep s).
    rewrite split_app_sep, (split_no_sep sep t Ht), IH by (assumption || discriminate).
    reflexivity.
Qed.

Lemma contains_all_chars (p : ascii -> bool) x s :
  p x = false -> all_chars p s = true -> PyStr.contains x s = false.
Proof.
  intros Hx. induction s as [|c s IH]; [reflexivity|]. cbn [all_chars PyStr.contains].
  intros [Hc Hs]%andb_true_iff. rewrite (IH Hs), orb_false_r.
  destruct (Ascii.eqb_spec x c) as [->|]; [congruence|reflexivity].
Qed.

Lemma contains_app x a b :
  PyStr.contains x (a +:+ b) = PyStr.contains x a || PyStr.contains x b.
Proof.
  induction a as [|c a IH]; [reflexivity|].
  change (String c a +:+ b) with (String c (a +:+ b)). cbn [PyStr.contains].
  rewrite IH, orb_assoc. reflexivity.
Qed.

Lemma escape_no_slash k : PyStr.contains "/" (rfc6901_escape k) = false.
Proof.
  induction k as [|c k IH]; [reflexivity|]. cbn [rfc6901_escape].
  rewrite contains_app, IH, orb_false_r.
  destruct (Ascii.eqb_spec c "~"); [reflexivity|].
  destruct (Ascii.eqb_spec c "/") as [|Hc]; [reflexivity|]. cbn [PyStr.contains].
  destruct (Ascii.eqb_spec "/" c); [congruence|reflexivity].
Qed.

(** A segment without [~] is used as it is. *)
Lemma unescape_no_tilde s : PyStr.contains "~" s = false -> unescape s = s.
Proof.
  assert (Hrep : forall d new t, PyStr.contains "~" t = false ->
                                 PyStr.replace (String "~" d) new t = t).
  { intros d new t. induction t as [|c t IH]; [reflexivity|]. cbn [PyStr.contains].
    intros [Hc Ht]%orb_false_iff. rewrite replace_cons_other, (IH Ht); [reflexivity|].
    cbn [PyStr.startswith]. rewrite Hc. reflexivity. }
  intros Hs. unfold unescape. rewrite (Hrep "1" "/" s Hs), (Hrep "0" "~" s Hs). reflexivity.
Qed.

Lemma segment_token_no_slash s : PyStr.contains "/" (segment_token s) = false.
Proof.
  destruct s as [k|i|j]; cbn [segment_token].
  - apply escape_no_slash.
  - apply (contains_all_chars is_digit); [reflexivity|]. apply (pretty_N_digits (N.of_nat i)).
  - change ("-" +:+ ?s) with (String "-" s). cbn [PyStr.contains]. cbn [Ascii.eqb orb].
    apply (contains_all_chars is_digit); [reflexivity|]. apply (pretty_N_digits (N.of_nat j)).
Qed.

(** ** Indexing *)

Lemma list_index_nonneg {A} (xs : list A) (i : nat) x :
  xs !! i = Some x -> Z.of_nat i <= ssize_max -> list_index xs (Z.of_nat i) = Ok x.
Proof.
  intros Hx Hmax. pose proof (lookup_lt_Some _ _ _ Hx) as Hlt. unfold list_index.
  assert (Hpos : 0 < ssize_max) by reflexivity.
  destruct (Z.ltb_spec (Z.of_nat i) (- ssize_max - 1)); [lia|].
  destruct (Z.ltb_spec ssize_max (Z.of_nat i)); [lia|]. cbn [orb].
  destruct (Z.ltb_spec (Z.of_nat i) 0); [lia|].
  destruct (Z.ltb_spec (Z.of_nat i) 0); [lia|].
  destruct (Z.leb_spec (Z.of_nat (length xs)) (Z.of_nat i)); [lia|]. cbn [orb].
  rewrite Nat2Z.id, Hx. reflexivity.
Qed.

(** [xs[-n]] is the [n]-th element from the end. *)
Lemma list_index_from_end {A} (xs : list A) (n : nat) x :
  (1 <= n <= length xs)%nat -> xs !! (length xs - n)%nat = Some x ->
  Z.of_nat n <= ssize_max + 1 ->
  list_index xs (- Z.of_nat n) = Ok x.
Proof.
  intros Hn Hx Hmax. unfold list_index.
  assert (Hpos : 0 < ssize_max) by reflexivity.
  destruct (Z.ltb_spec (- Z.of_nat n) (- ssize_max - 1)); [lia|].
  destruct (Z.ltb_spec ssize_max (- Z.of_nat n)); [lia|]. cbn [orb].
  destruct (Z.ltb_spec (- Z.of_nat n) 0); [|lia].
  destruct (Z.ltb_spec (- Z.of_nat n + Z.of_nat (length xs)) 0); [lia|].
  destruct (Z.leb_spec (Z.of_nat (length xs)) (- Z.of_nat n + Z.of_nat (length xs))); [lia|].
  cbn [orb].
  replace (Z.to_nat (- Z.of_nat n + Z.of_nat (length xs))) with (length xs - n)%nat by lia.
  rewrite Hx. reflexivity.
Qed.

Lemma list_index_elem {A} (xs : list A) i x : list_index xs i = Ok x -> x ∈ xs.
Proof.
  unfold list_index. destruct (_ || _); [discriminate|]. cbn zeta.
  destruct (_ || _); [discriminate|].
  destruct (xs !! _) as [y|] eqn:Hy; [|discriminate]. intros [= <-].
  eapply list_elem_of_lookup_2, Hy.
Qed.

(** ** Pointers and paths *)

Lemma walk_parts_path ref_path path j v :
  Forall segment_in_range path -> node_at path j = Some v ->
  walk_parts ref_path (map segment_token path) j = Ok v.
Proof.
  intros Hrange. revert j. induction Hrange as [|s path Hs _ IH]; intros j Hv.
  - injection Hv as <-. reflexivity.
  - cbn [map walk_parts]. destruct s as [k|i|n]; cbn [node_at segment_token] in *.
    + rewrite unescape_escape. destruct j as [| | | | |xs|items]; try discriminate.
      destruct (Dict.get k items) as [x|]; [|discriminate]. apply IH, Hv.
    + rewrite unescape_no_tilde
        by (apply (contains_all_chars is_digit); [reflexivity|];
            apply (pretty_N_digits (N.of_nat i))).
      destruct j as [| | | | |xs|items]; try discriminate.
      destruct (xs !! i) as [x|] eqn:Hx; [|discriminate].
      rewrite int_pretty_nat, (list_index_nonneg xs i x Hx Hs). apply IH, Hv.
    + assert (Htoken : unescape ("-" +:+ pretty n) = "-" +:+ pretty n).
      { apply unescape_no_tilde. change ("-" +:+ ?s) with (String "-" s).
        cbn [PyStr.contains Ascii.eqb orb].
        apply (contains_all_chars is_digit); [reflexivity|].
        apply (pretty_N_digits (N.of_nat n)). }
      rewrite Htoken. destruct j as [| | | | |xs|items]; try discriminate.
      case_bool_decide as Hn; [|discriminate].
      destruct (xs !! (length xs - n)%nat) as [x|] eqn:Hx; [|discriminate].
      rewrite int_minus_pretty_nat, (list_index_from_end xs n x Hn Hx Hs). apply IH, Hv.
Qed.

(** X1. A pointer built from a path addresses the node at the end of the
    path: for every path of keys, indices and indices from the end that
    exists in the document, with the keys escaped and the indices in
    decimal, [resolve_ref_pointer] returns the node the path leads to. *)
Theorem X1_pointer_addresses_node (path : list segment) (root_doc v : json) :
  path <> [] -> Forall segment_in_range path -> node_at path root_doc = Some v ->
  resolve_ref_pointer (JStr (pointer_of path)) root_doc = Ok v.
Proof.
  intros Hne Hrange Hv. unfold resolve_ref_pointer, pointer_of.
  change (PyStr.startswith ("#/" +:+ ?s) "#/") with true. cbn [negb].
  change (PyStr.drop 2 ("#/" +:+ ?s)) with s.
  rewrite (split_join "/").
  - apply walk_parts_path; assumption.
  - destruct path; [congruence|discriminate].
  - apply Forall_fmap, Forall_forall. intros s _. apply segment_token_no_slash.
Qed.

Lemma X1_pointer_addresses_node_witness :
  path_sample <> []
  /\ Forall segment_in_range path_sample
  /\ (node_at path_sample path_doc = Some (JBool true))
  /\ (pointer_of path_sample = "#/a~1b/1/-1/~0k")
  /\ (resolve_ref_pointer (JStr "#/a~1b/1/-1/~0k") path_doc = Ok (JBool true)).
Proof.
  assert (H1 : path_sample <> []) by discriminate.
  assert (H2 : Forall segment_in_range path_sample)
    by (repeat constructor; cbn; unfold ssize_max; lia).
  assert (H3 : node_at path_sample path_doc = Some (JBool true)) by reflexivity.
  repeat (split; [assumption|]). split; [vm_compute; reflexivity|].
  exact (X1_pointer_addresses_node path_sample path_doc (JBool true) H1 H2 H3).
Defined.

Lemma child_size parent kid : child parent kid -> (json_size kid < json_size parent)%nat.
Proof.
  intros [xs x Hx|items k v Hv]; [apply json_size_elem, Hx|apply (json_size_value k), Hv].
Qed.

Lemma walk_parts_descends ref_path parts current v :
  walk_parts ref_path parts current = Ok v -> rtc child current v.
Proof.
  revert current. induction parts as [|part parts IH]; intros current Hwalk.
  - injection Hwalk as <-. apply rtc_refl.
  - cbn [walk_parts] in Hwalk. destruct current as [| | | | |xs|items]; try discriminate.
    + destruct (PyStr.int (unescape part)) as [i|e]; [|discriminate].
      destruct (list_index xs i) as [x|e] eqn:Hx; [|discriminate].
      eapply rtc_l; [|apply IH, Hwalk]. constructor. apply (list_index_elem xs i x Hx).
    + destruct (Dict.get (unescape part) items) as [x|] eqn:Hx; [|discriminate].
      eapply rtc_l; [|apply IH, Hwalk]. econstructor. apply dict_get_Some_elem, Hx.
Qed.

Lemma resolve_descends ref_path root_doc v :
  resolve_ref_pointer ref_path root_doc = Ok v -> tc child root_doc v.
Proof.
  intros Hres.
  unfold resolve_ref_pointer in Hres. destruct ref_path as [| | | |s| |]; try discriminate.
  destruct (negb (PyStr.startswith s "#/")); [discriminate|].
  destruct (PyStr.split "/" (PyStr.drop 2 s)) as [|part parts] eqn:Hsplit;
    [exfalso; apply (split_nonempty _ _ Hsplit)|].
  cbn [walk_parts] in Hres. destruct root_doc as [| | | | |xs|items]; try discriminate.
  - destruct (PyStr.int (unescape part)) as [i|e]; [|discriminate].
    destruct (list_index xs i) as [x|e] eqn:Hx; [|discriminate].
    eapply tc_rtc_r; [|eapply walk_parts_descends, Hres].
    apply tc_once. constructor. apply (list_index_elem xs i x Hx).
  - destruct (Dict.get (unescape part) items) as [x|] eqn:Hx; [|discriminate].
    eapply tc_rtc_r; [|eapply walk_parts_descends, Hres].
    apply tc_once. econstructor. apply dict_get_Some_elem, Hx.
Qed.

(** X2. What a pointer resolves to is inside the document, below the
    root: a node reached from the root through one or more elements of
    lists and values of dicts, never the root itself, and hence a smaller
    document. *)
Theorem X2_resolved_node_is_below_root (ref_path root_doc v : json) :
  resolve_ref_pointer ref_path root_doc = Ok v ->
  tc child root_doc v /\ (json_size v < json_size root_doc)%nat.
Proof.
  intros Hres. pose proof (resolve_descends _ _ _ Hres) as Htc.
  split; [exact Htc|]. clear Hres.
  induction Htc as [a b Hab|a b c Hab _ IH]; [apply child_size, Hab|].
  apply child_size in Hab. lia.
Qed.

Lemma X2_resolved_node_is_below_root_witness :
  (resolve_ref_pointer (JStr "#/components/schemas/Pet") Samples.pet_doc
   = Ok (JDict Samples.pet_target))
  /\ tc child Samples.pet_doc (JDict Samples.pet_target).
Proof.
  assert (H : resolve_ref_pointer (JStr "#/components/schemas/Pet") Samples.pet_doc
              = Ok (JDict Samples.pet_target)) by (vm_compute; reflexivity).
  split; [exact H|]. exact (proj1 (X2_resolved_node_is_below_root _ _ _ H)).
Defined.

(** The value found does not depend on the pointer text carried along for
    the error message. *)
Lemma walk_parts_ok_ref ref1 ref2 parts current v :
  walk_parts ref1 parts current = Ok v -> walk_parts ref2 parts current = Ok v.
Proof.
  revert current. induction parts as [|part parts IH]; intros current Hwalk; [exact Hwalk|].
  cbn [walk_parts] in Hwalk |- *. destruct current as [| | | | |xs|items]; try discriminate.
  - destruct (PyStr.int (unescape part)) as [i|e]; [|discriminate].
    destruct (list_index xs i) as [x|e]; [|discriminate]. apply IH, Hwalk.
  - destruct (Dict.get (unescape part) items) as [x|]; [|discriminate]. apply IH, Hwalk.
Qed.

(** X3. Pointers compose: when [#/a] resolves to a node, the pointer
    [#/a/b] resolves in the document to exactly what [#/b] resolves to in
    that node. *)
Theorem X3_pointer_composition (a b : string) (root_doc v : json) :
  resolve_ref_pointer (JStr ("#/" +:+ a)) root_doc = Ok v ->
  forall w,
    resolve_ref_pointer (JStr ("#/" +:+ a +:+ "/" +:+ b)) root_doc = Ok w
    <-> resolve_ref_pointer (JStr ("#/" +:+ b)) v = Ok w.
Proof.
  unfold resolve_ref_pointer.
  change (PyStr.startswith ("#/" +:+ ?s) "#/") with true. cbn [negb].
  change (PyStr.drop 2 ("#/" +:+ a)) with a.
  change (PyStr.drop 2 ("#/" +:+ b)) with b.
  change (PyStr.drop 2 ("#/" +:+ a +:+ "/" +:+ b)) with (a +:+ String "/" b).
  intros Ha w. rewrite split_app_sep, walk_parts_app.
  rewrite (walk_parts_ok_ref _ ("#/" +:+ a +:+ "/" +:+ b) _ _ _ Ha).
  split; apply walk_parts_ok_ref.
Qed.

Lemma X3_pointer_composition_witness :
  (resolve_ref_pointer (JStr ("#/" +:+ "components")) Samples.pet_doc
   = Ok (JDict [("schemas", JDict [("Pet", JDict Samples.pet_target)])]))
  /\ (resolve_ref_pointer (JStr ("#/" +:+ "schemas/Pet"))
        (JDict [("schemas", JDict [("Pet", JDict Samples.pet_target)])])
      = Ok (JDict Samples.pet_target)).
Proof.
  assert (H : resolve_ref_pointer (JStr ("#/" +:+ "components")) Samples.pet_doc
              = Ok (JDict [("schemas", JDict [("Pet", JDict Samples.pet_target)])]))
    by (vm_compute; reflexivity).
  split; [exact H|].
  apply (X3_pointer_composition "components" "schemas/Pet" _ _ H). vm_compute. reflexivity.
Defined.

(** ** More on the expander *)

(** X4. Sibling keys are dropped when the target is not a dict: a
    reference node whose pointer resolves to a list or a scalar expands
    to the expansion of the target alone, whatever keys stand beside
    ["$ref"]; and to the target itself when it is a scalar and the depth
    is below the maximum. *)
Theorem X4_non_dict_target_drops_siblings
    items ref_path root_doc path depth visited_paths resolved :
  depth <= MAX_DEPTH ->
  Dict.get "$ref" items = Some ref_path ->
  tracking_key path ref_path ∉ visited_paths ->
  resolve_ref_pointer ref_path root_doc = Ok resolved ->
  (forall target, resolved <> JDict target) ->
  expand_refs (JDict items) root_doc path depth visited_paths
    = expand_refs resolved root_doc (ref_location path ref_path) (depth + 1)
        ({[tracking_key path ref_path]} ∪ visited_paths)
  /\ ((forall xs, resolved <> JList xs) -> depth < MAX_DEPTH ->
      expand_refs (JDict items) root_doc path depth visited_paths = resolved).
Proof.
  intros Hdepth Hget Hfresh Hres Hdict.
  assert (Hfollow : expand_refs (JDict items) root_doc path depth visited_paths
                    = expand_refs resolved root_doc (ref_location path ref_path) (depth + 1)
                        ({[tracking_key path ref_path]} ∪ visited_paths)).
  { rewrite (expand_refs_follow items ref_path root_doc path depth visited_paths resolved)
      by assumption.
    f_equal. unfold merge_props. destruct (other_props items); [reflexivity|].
    destruct resolved; try reflexivity. exfalso. eapply Hdict. reflexivity. }
  split; [exact Hfollow|]. intros Hlist Hbelow. rewrite Hfollow, expand_refs_eq.
  destruct (Z.ltb_spec MAX_DEPTH (depth + 1)); [lia|].
  destruct resolved; try reflexivity; exfalso; [eapply Hlist|eapply Hdict]; reflexivity.
Qed.

Lemma X4_non_dict_target_drops_siblings_witness :
  (0 <= MAX_DEPTH)
  /\ (Dict.get "$ref" [("$ref", JStr "#/info/title"); ("description", JStr "ignored")]
      = Some (JStr "#/info/title"))
  /\ (tracking_key "root.name" (JStr "#/info/title") ∉ (∅ : gset string))
  /\ (resolve_ref_pointer (JStr "#/info/title") title_doc = Ok (JStr "Pets"))
  /\ (expand_refs (JDict [("$ref", JStr "#/info/title"); ("description", JStr "ignored")])
        title_doc "root.name" 0 ∅ = JStr "Pets").
Proof.
  assert (H1 : 0 <= MAX_DEPTH) by (unfold MAX_DEPTH; lia).
  assert (H2 : Dict.get "$ref" [("$ref", JStr "#/info/title"); ("description", JStr "ignored")]
               = Some (JStr "#/info/title")) by reflexivity.
  assert (H3 : tracking_key "root.name" (JStr "#/info/title") ∉ (∅ : gset string))
    by apply not_elem_of_empty.
  assert (H4 : resolve_ref_pointer (JStr "#/info/title") title_doc = Ok (JStr "Pets"))
    by (vm_compute; reflexivity).
  repeat (split; [assumption|]).
  refine (proj2 (X4_non_dict_target_drops_siblings _ _ _ _ _ _ _ H1 H2 H3 H4 _) _ _);
    try discriminate. unfold MAX_DEPTH. lia.
Defined.

(** X5. A reference that is not a string: when the value under ["$ref"]
    is a number, a boolean, [None], a list or a dict, the node expands to
    the error placeholder that names the value and its type, since the
    resolver calls [startswith] on it. *)
Theorem X5_non_string_ref items ref_value root_doc path depth visited_paths :
  depth <= MAX_DEPTH ->
  Dict.get "$ref" items = Some ref_value ->
  (forall s, ref_value <> JStr s) ->
  tracking_key path ref_value ∉ visited_paths ->
  expand_refs (JDict items) root_doc path depth visited_paths
  = JDict [("type", JStr "object");
           ("description",
            JStr ("Error resolving " +:+ py_repr ref_value +:+ ": '" +:+ type_name ref_value
                  +:+ "' object has no attribute 'startswith'"))].
Proof.
  intros Hdepth Hget Hstr Hfresh.
  assert (Hres : resolve_ref_pointer ref_value root_doc
                 = Raise (AttributeError ("'" +:+ type_name ref_value
                                          +:+ "' object has no attribute 'startswith'"))).
  { destruct ref_value; try reflexivity. exfalso. eapply Hstr. reflexivity. }
  rewrite (expand_refs_error _ _ _ _ _ _ _ Hdepth Hget Hfresh Hres).
  unfold error_placeholder, error_description, placeholder, str_exc.
  destruct ref_value; try reflexivity. exfalso. eapply Hstr. reflexivity.
Qed.

Lemma X5_non_string_ref_witness :
  (0 <= MAX_DEPTH)
  /\ (Dict.get "$ref" [("$ref", JInt 5)] = Some (JInt 5))
  /\ (tracking_key "root.bad" (JInt 5) ∉ (∅ : gset string))
  /\ (expand_refs (JDict [("$ref", JInt 5)]) title_doc "root.bad" 0 ∅
      = placeholder "Error resolving 5: 'int' object has no attribute 'startswith'").
Proof.
  assert (H1 : 0 <= MAX_DEPTH) by (unfold MAX_DEPTH; lia).
  assert (H2 : Dict.get "$ref" [("$ref", JInt 5)] = Some (JInt 5)) by reflexivity.
  assert (H3 : tracking_key "root.bad" (JInt 5) ∉ (∅ : gset string))
    by apply not_elem_of_empty.
  repeat (split; [assumption|]).
  refine (X5_non_string_ref _ _ title_doc _ _ _ H1 H2 _ H3). discriminate.
Defined.

Lemma expand_refs_gas_visited gas root_doc depth obj path (v1 v2 : gset string) :
  (forall key, key ∈ v1 -> (String.length key <= String.length path)%nat) ->
  (forall key, key ∈ v2 -> (String.length key <= String.length path)%nat) ->
  expand_refs_gas gas root_doc depth obj path v1
  = expand_refs_gas gas root_doc depth obj path v2.
Proof.
  revert depth obj path v1 v2. induction gas as [|g IHg]; intros depth obj.
  all: induction obj as [| | | | |xs IHxs|items IHitems] using json_ind';
    intros path v1 v2 H1 H2.
  all: rewrite !(expand_refs_gas_eq _ root_doc depth _ path).
  all: destruct (MAX_DEPTH <? depth); try reflexivity.
  all: try (f_equal; apply imap_ext; intros i x Hx;
            apply (proj1 (Forall_forall _ _) IHxs x (list_elem_of_lookup_2 _ _ _ Hx));
            intros key Hkey; [specialize (H1 key Hkey)|specialize (H2 key Hkey)];
            pose proof (index_location_length path i); lia).
  all: destruct (Dict.get "$ref" items) as [ref_path|].
  all: try (do 2 f_equal; apply map_ext_Forall, Forall_forall; intros [k v] Hkv; cbn;
            f_equal; apply (proj1 (Forall_forall _ _) IHitems _ Hkv);
            intros key Hkey; [specialize (H1 key Hkey)|specialize (H2 key Hkey)];
            pose proof (key_location_length path k); lia).
  all: cbn zeta.
  all: rewrite !bool_decide_eq_false_2
         by (intros Hin; first [specialize (H1 _ Hin)|specialize (H2 _ Hin)];
             rewrite tracking_key_length in *; lia).
  all: destruct (resolve_ref_pointer ref_path root_doc); try reflexivity.
  apply IHg; intros key [Hkey|Hkey]%elem_of_union; rewrite ref_location_length;
    try (apply elem_of_singleton in Hkey as ->; rewrite tracking_key_length; lia);
    first [specialize (H1 key Hkey)|specialize (H2 key Hkey)]; lia.
Qed.

(** X6. The visited set has no effect on the result: two calls of
    [expand_refs] that differ only in their visited sets return the same
    document, whenever no key of either set is longer than the location,
    as in every call that [expand_refs(doc, doc)] leads to. *)
Theorem X6_visited_paths_irrelevant obj root_doc path depth (v1 v2 : gset string) :
  (forall key, key ∈ v1 -> (String.length key <= String.length path)%nat) ->
  (forall key, key ∈ v2 -> (String.length key <= String.length path)%nat) ->
  expand_refs obj root_doc path depth v1 = expand_refs obj root_doc path depth v2.
Proof. intros H1 H2. apply expand_refs_gas_visited; assumption. Qed.

Lemma X6_visited_paths_irrelevant_witness :
  expand_refs Samples.pet_ref Samples.pet_doc "root" 0 ∅
  = expand_refs Samples.pet_ref Samples.pet_doc "root" 0 {["seen"]}.
Proof.
  apply X6_visited_paths_irrelevant.
  - intros key Hkey. apply elem_of_empty in Hkey as [].
  - intros key Hkey. apply elem_of_singleton in Hkey as ->. cbn. lia.
Defined.

(** ** Well-formed documents stay well formed *)

Lemma json_wf_list xs : json_wf (JList xs) = true <-> Forall (fun x => json_wf x = true) xs.
Proof. cbn [json_wf]. apply forallb_Forall. Qed.

Lemma json_wf_child parent kid : json_wf parent = true -> child parent kid -> json_wf kid = true.
Proof.
  intros Hwf Hchild. destruct Hchild as [xs x Hx|items k v Hv].
  - apply json_wf_list in Hwf. apply (proj1 (Forall_forall _ _) Hwf x Hx).
  - apply json_wf_dict in Hwf as [_ Hwf]. apply (proj1 (Forall_forall _ _) Hwf (k, v) Hv).
Qed.

Lemma json_wf_resolved ref_path root_doc v :
  json_wf root_doc = true -> resolve_ref_pointer ref_path root_doc = Ok v -> json_wf v = true.
Proof.
  intros Hwf Hres. apply resolve_descends in Hres.
  induction Hres as [a b Hab|a b c Hab _ IH]; eauto using json_wf_child.
Qed.

Lemma dict_set_keys {A} k (v : A) d :
  Dict.keys (Dict.set k v d) = if bool_decide (k ∈ Dict.keys d) then Dict.keys d
                               else Dict.keys d ++ [k].
Proof.
  unfold Dict.keys. induction d as [|[k0 v0] d IH]; [reflexivity|]. cbn [Dict.set].
  destruct (String.eqb_spec k k0) as [->|Hne].
  - rewrite bool_decide_eq_true_2 by (cbn; left). reflexivity.
  - rewrite fmap_cons, IH. cbn [fst fmap list_fmap]. case_bool_decide as Hin.
    + rewrite bool_decide_eq_true_2 by (right; exact Hin). reflexivity.
    + rewrite bool_decide_eq_false_2; [reflexivity|].
      intros [?|?]%elem_of_cons; [congruence|contradiction].
Qed.

(** A dict built by insertions has no key twice. *)
Lemma dict_of_items_keys_nodup {A} (l : list (string * A)) : NoDup (Dict.keys (Dict.of_items l)).
Proof.
  unfold Dict.of_items.
  assert (Hgen : forall d, NoDup (Dict.keys d) ->
                           NoDup (Dict.keys (fold_left (fun d kv => Dict.set kv.1 kv.2 d) l d))).
  { induction l as [|[k v] l IH]; intros d Hd; [exact Hd|]. cbn [fold_left]. apply IH.
    rewrite dict_set_keys. case_bool_decide as Hin; [exact Hd|].
    apply NoDup_app. split; [exact Hd|]. split; [|apply NoDup_singleton].
    intros x Hx [= ->]%list_elem_of_singleton. contradiction. }
  apply Hgen. constructor.
Qed.

Lemma json_wf_of_items l :
  Forall (fun kv => json_wf kv.2 = true) l -> json_wf (JDict (Dict.of_items l)) = true.
Proof.
  intros Hl. apply json_wf_dict. split; [apply dict_of_items_keys_nodup|].
  apply dict_of_items_Forall, Hl.
Qed.

Lemma json_wf_placeholder description : json_wf (placeholder description) = true.
Proof.
  apply json_wf_dict. split; [|repeat constructor].
  cbn. apply NoDup_cons. split; [|apply NoDup_singleton].
  intros [= ]%list_elem_of_singleton.
Qed.

Lemma json_wf_merge_props resolved (items : Dict.t json) :
  json_wf resolved = true -> Forall (fun kv => json_wf kv.2 = true) items ->
  json_wf (merge_props resolved (other_props items)) = true.
Proof.
  intros Hres Hitems. unfold merge_props.
  destruct (other_props items) as [|kv props] eqn:Hprops; [exact Hres|].
  destruct resolved as [| | | | | |target]; try exact Hres.
  unfold Dict.merge. apply json_wf_of_items. apply Forall_app. split.
  - apply json_wf_dict in Hres as [_ Hres]. exact Hres.
  - rewrite <- Hprops. unfold other_props. apply dict_of_items_Forall.
    apply Forall_forall. intros kv0 [_ Hin]%list_elem_of_filter.
    apply (proj1 (Forall_forall _ _) Hitems kv0 Hin).
Qed.

Lemma expand_refs_gas_wf gas root_doc depth obj path visited_paths :
  json_wf root_doc = true -> json_wf obj = true ->
  json_wf (expand_refs_gas gas root_doc depth obj path visited_paths) = true.
Proof.
  intros Hroot. revert depth obj path visited_paths. induction gas as [|g IHg]; intros depth obj.
  all: induction obj as [| | | | |xs IHxs|items IHitems] using json_ind';
    intros path visited_paths Hobj.
  all: rewrite expand_refs_gas_eq.
  all: destruct (MAX_DEPTH <? depth); [apply json_wf_placeholder|]; try reflexivity.
  all: try (apply json_wf_list, Forall_forall; intros y Hy;
            apply elem_of_lookup_imap in Hy as (i & x & -> & Hx);
            apply list_elem_of_lookup_2 in Hx;
            apply (proj1 (Forall_forall _ _) IHxs x Hx);
            apply json_wf_list in Hobj; apply (proj1 (Forall_forall _ _) Hobj x Hx)).
  all: apply json_wf_dict in Hobj as [Hnd Hitems].
  all: destruct (Dict.get "$ref" items) as [ref_path|].
  all: try (apply json_wf_of_items, Forall_fmap, Forall_forall; intros [k v] Hkv; cbn;
            apply (proj1 (Forall_forall _ _) IHitems _ Hkv);
            apply (proj1 (Forall_forall _ _) Hitems _ Hkv)).
  all: cbn zeta; case_bool_decide; [apply json_wf_placeholder|].
  all: destruct (resolve_ref_pointer ref_path root_doc) as [resolved|e] eqn:Hres;
    try apply json_wf_placeholder.
  apply IHg. rewrite deepcopy_id. apply json_wf_merge_props; [|exact Hitems].
  apply (json_wf_resolved ref_path root_doc resolved Hroot Hres).
Qed.

(** X7. Expanding twice is expanding once: the expansion of a document
    has no reference left, so [expand_refs] returns it as it is. *)
Theorem X7_expand_idempotent (D : json) :
  json_wf D = true -> expand_document (expand_document D) = expand_document D.
Proof.
  intros Hwf. unfold expand_document at 1. apply expand_refs_ref_free.
  - apply expand_refs_gas_wf; exact Hwf.
  - apply expand_refs_gas_no_ref.
  - unfold MAX_DEPTH. lia.
Qed.

Lemma X7_expand_idempotent_witness :
  json_wf Samples.pet_doc = true
  /\ expand_document (expand_document Samples.pet_doc) = expand_document Samples.pet_doc.
Proof.
  assert (H : json_wf Samples.pet_doc = true) by (vm_compute; reflexivity).
  split; [exact H|]. exact (X7_expand_idempotent Samples.pet_doc H).
Defined.

(** ** The pruner, again *)

Lemma filter_all {A} (P : A -> Prop) `{!forall x, Decision (P x)} (l : list A) :
  (forall x, x ∈ l -> P x) -> filter P l = l.
Proof.
  induction l as [|x l IH]; intros Hl; [reflexivity|].
  rewrite filter_cons_True by (apply Hl; left).
  rewrite IH; [reflexivity|]. intros y Hy. apply Hl. right. exact Hy.
Qed.

Lemma dict_remove_keys {A} k (d : Dict.t A) :
  NoDup (Dict.keys d) ->
  Dict.keys (Dict.remove k d) = filter (fun k' => k' ≠ k) (Dict.keys d).
Proof.
  unfold Dict.keys. induction d as [|[k0 v0] d IH]; [reflexivity|].
  rewrite fmap_cons, NoDup_cons. cbn [fst]. intros [Hfresh Hnd]. cbn [Dict.remove].
  rewrite filter_cons. destruct (String.eqb_spec k k0) as [->|Hne].
  - rewrite decide_False by (intros H; apply H; reflexivity).
    symmetry. apply filter_all. intros x Hx ->. contradiction.
  - rewrite decide_True by congruence. rewrite fmap_cons, IH by exact Hnd. reflexivity.
Qed.

Lemma dict_remove_absent {A} k (d : Dict.t A) : Dict.get k d = None -> Dict.remove k d = d.
Proof.
  induction d as [|[k0 v0] d IH]; [reflexivity|]. cbn [Dict.get Dict.remove].
  destruct (String.eqb k k0); [discriminate|]. intros Hd. rewrite (IH Hd). reflexivity.
Qed.

Lemma dict_remove_sublist {A} k (d : Dict.t A) : Dict.remove k d ⊆ d.
Proof.
  induction d as [|[k0 v0] d IH]; [reflexivity|]. cbn [Dict.remove].
  destruct (String.eqb k k0); intros x Hx.
  - right. exact Hx.
  - apply elem_of_cons in Hx as [->|Hx]; [left|right; apply IH, Hx].
Qed.

(** X8. The pruner on a dict: afterwards there is no key ["components"];
    every other key has the value it had; the keys that remain are in
    the order they were in; a document without the key is returned as it
    is; and pruning twice is pruning once. *)
Theorem X8_pruner (doc : Dict.t json) :
  NoDup (Dict.keys doc) ->
  Dict.get "components" (remove_unused_components doc) = None
  /\ (forall k, k <> "components" ->
        Dict.get k (remove_unused_components doc) = Dict.get k doc)
  /\ Dict.keys (remove_unused_components doc)
     = filter (fun k => k ≠ "components") (Dict.keys doc)
  /\ (Dict.get "components" doc = None -> remove_unused_components doc = doc)
  /\ remove_unused_components (remove_unused_components doc) = remove_unused_components doc.
Proof.
  intros Hnd. destruct (remove_unused_components_spec doc Hnd) as [Hgone Hother].
  split; [exact Hgone|]. split; [exact Hother|]. split; [|split].
  - unfold remove_unused_components, Dict.mem.
    destruct (Dict.get "components" doc) eqn:Hget; [apply dict_remove_keys, Hnd|].
    symmetry. apply filter_all. intros k Hk ->.
    apply dict_get_None in Hget. contradiction.
  - intros Hget. unfold remove_unused_components, Dict.mem. rewrite Hget. reflexivity.
  - unfold remove_unused_components at 1. unfold Dict.mem. rewrite Hgone. reflexivity.
Qed.

Lemma X8_pruner_witness :
  NoDup (Dict.keys [("paths", JNull); ("components", JNull); ("info", JNull)])
  /\ Dict.keys (remove_unused_components
                  [("paths", JNull); ("components", JNull); ("info", JNull)])
     = ["paths"; "info"].
Proof.
  assert (H : NoDup (Dict.keys [("paths", JNull); ("components", JNull); ("info", JNull)]))
    by (apply (bool_decide_unpack _); vm_compute; exact I).
  split; [exact H|].
  rewrite (proj1 (proj2 (proj2 (X8_pruner _ H)))). vm_compute. reflexivity.
Defined.

(** ** The whole transformation *)

Lemma remove_unused_components_wf doc :
  json_wf (JDict doc) = true -> json_wf (JDict (remove_unused_components doc)) = true.
Proof.
  intros [Hnd Hvalues]%json_wf_dict. apply json_wf_dict.
  unfold remove_unused_components. destruct (Dict.mem "components" doc); [|auto]. split.
  - rewrite dict_remove_keys by exact Hnd. apply NoDup_filter, Hnd.
  - apply Forall_forall. intros kv Hkv.
    apply (proj1 (Forall_forall _ _) Hvalues kv (dict_remove_sublist _ _ _ Hkv)).
Qed.

Lemma remove_unused_components_no_ref doc :
  has_ref (JDict doc) = false -> has_ref (JDict (remove_unused_components doc)) = false.
Proof.
  intros [Hget Hvalues]%has_ref_dict. apply has_ref_dict.
  unfold remove_unused_components. destruct (Dict.mem "components" doc); [|auto]. split.
  - rewrite dict_get_remove_ne by discriminate. exact Hget.
  - apply Forall_forall. intros kv Hkv.
    apply (proj1 (Forall_forall _ _) Hvalues kv (dict_remove_sublist _ _ _ Hkv)).
Qed.

Lemma prune_document_keeps doc out :
  json_wf doc = true -> has_ref doc = false -> prune_document doc = Pruned out ->
  json_wf out = true /\ has_ref out = false /\ prune_document out = Pruned out
  /\ (forall items, out = JDict items -> Dict.get "components" items = None).
Proof.
  intros Hwf Href Hprune. destruct doc as [| | | |s|xs|items]; try discriminate;
    cbn [prune_document] in Hprune.
  - destruct (has_substring "components" s) eqn:Hsub; [discriminate|].
    injection Hprune as <-. cbn [prune_document]. rewrite Hsub.
    repeat split; try assumption. discriminate.
  - destruct (existsb _ xs) eqn:Hin; [discriminate|].
    injection Hprune as <-. cbn [prune_document]. rewrite Hin.
    repeat split; try assumption. discriminate.
  - injection Hprune as <-.
    pose proof (proj1 (json_wf_dict _) Hwf) as [Hnd _].
    destruct (remove_unused_components_spec items Hnd) as [Hgone _].
    split; [apply remove_unused_components_wf, Hwf|].
    split; [apply remove_unused_components_no_ref, Href|]. split.
    + cbn [prune_document]. do 2 f_equal.
      unfold remove_unused_components at 1. unfold Dict.mem. rewrite Hgone. reflexivity.
    + intros items' [= <-]. exact Hgone.
Qed.

(** X9. What [process_file] writes is self-contained and stable: when the
    two steps succeed on a document, the result has no dict with the key
    ["$ref"] anywhere and, if it is a dict, no key ["components"]; and
    the two steps applied to the result return the result. *)
Theorem X9_process_output (doc out : json) :
  json_wf doc = true ->
  process_document doc = Pruned out ->
  has_ref out = false
  /\ (forall items, out = JDict items -> Dict.get "components" items = None)
  /\ process_document out = Pruned out.
Proof.
  unfold process_document. intros Hwf Hout.
  assert (Hwf' : json_wf (expand_document doc) = true)
    by (apply expand_refs_gas_wf; exact Hwf).
  assert (Href' : has_ref (expand_document doc) = false) by apply expand_refs_gas_no_ref.
  destruct (prune_document_keeps _ _ Hwf' Href' Hout) as (Hwfo & Hrefo & Hidem & Hgone).
  split; [exact Hrefo|]. split; [exact Hgone|].
  unfold expand_document. rewrite expand_refs_ref_free; [exact Hidem|assumption..|].
  unfold MAX_DEPTH. lia.
Qed.

Lemma X9_process_output_witness :
  json_wf Samples.pet_doc = true
  /\ (process_document Samples.pet_doc
      = Pruned (JDict [("paths",
                        JDict [("/pets", JDict [("type", JStr "object");
                                                 ("description", JStr "override")])])]))
  /\ (process_document
        (JDict [("paths", JDict [("/pets", JDict [("type", JStr "object");
                                                   ("description", JStr "override")])])])
      = Pruned (JDict [("paths",
                        JDict [("/pets", JDict [("type", JStr "object");
                                                 ("description", JStr "override")])])])).
Proof.
  assert (H1 : json_wf Samples.pet_doc = true) by (vm_compute; reflexivity).
  assert (H2 : process_document Samples.pet_doc
               = Pruned (JDict [("paths",
                                 JDict [("/pets", JDict [("type", JStr "object");
                                                          ("description", JStr "override")])])]))
    by (vm_compute; reflexivity).
  split; [exact H1|]. split; [exact H2|].
  exact (proj2 (proj2 (X9_process_output _ _ H1 H2))).
Defined.

Lemma remove_unused_components_keys (doc : Dict.t json) :
  NoDup (Dict.keys doc) ->
  Dict.keys (remove_unused_components doc)
  = filter (fun k => k ≠ "components") (Dict.keys doc).
Proof.
  intros Hnd. unfold remove_unused_components, Dict.mem.
  destruct (Dict.get "components" doc) eqn:Hget; [apply dict_remove_keys, Hnd|].
  symmetry. apply filter_all. intros k Hk ->.
  apply dict_get_None in Hget. contradiction.
Qed.

(** X10. On a document that is a dict and not itself a reference node the
    two steps succeed: the result is a dict with the keys of the document
    other than ["components"], in their order, each with the expansion of
    its value. *)
Theorem X10_process_mapping (items : Dict.t json) :
  NoDup (Dict.keys items) ->
  Dict.get "$ref" items = None ->
  exists out,
    process_document (JDict items) = Pruned (JDict out)
    /\ Dict.keys out = filter (fun k => k ≠ "components") (Dict.keys items)
    /\ (forall k v, k <> "components" -> Dict.get k items = Some v ->
          Dict.get k out = Some (expand_refs v (JDict items) (key_location "root" k) 0 ∅)).
Proof.
  intros Hnd Href. unfold process_document, expand_document.
  rewrite expand_refs_dict by (assumption || (unfold MAX_DEPTH; lia)).
  set (expanded := map _ items).
  assert (Hkeys : Dict.keys expanded = Dict.keys items).
  { unfold Dict.keys, expanded. rewrite <- list_fmap_compose. reflexivity. }
  assert (Hnd' : NoDup (Dict.keys expanded)) by (rewrite Hkeys; exact Hnd).
  exists (remove_unused_components expanded). split; [reflexivity|]. split.
  - rewrite remove_unused_components_keys, Hkeys by exact Hnd'. reflexivity.
  - intros k v Hk Hget.
    rewrite (proj2 (remove_unused_components_spec expanded Hnd') k Hk).
    unfold expanded. rewrite dict_get_map_values, Hget. reflexivity.
Qed.

Lemma X10_process_mapping_witness :
  NoDup (Dict.keys [("paths", JDict [("/pets", Samples.pet_ref)]);
                    ("components", JDict [("schemas", JDict [("Pet", JDict Samples.pet_target)])])])
  /\ (Dict.get "$ref"
        [("paths", JDict [("/pets", Samples.pet_ref)]);
         ("components", JDict [("schemas", JDict [("Pet", JDict Samples.pet_target)])])]
      = None)
  /\ exists out,
       process_document Samples.pet_doc = Pruned (JDict out) /\ Dict.keys out = ["paths"].
Proof.
  assert (H1 : NoDup (Dict.keys
                        [("paths", JDict [("/pets", Samples.pet_ref)]);
                         ("components",
                          JDict [("schemas", JDict [("Pet", JDict Samples.pet_target)])])]))
    by (apply (bool_decide_unpack _); vm_compute; exact I).
  split; [exact H1|]. split; [reflexivity|].
  destruct (X10_process_mapping _ H1 eq_refl) as (out & Hout & Hkeys & _).
  exists out. split; [exact Hout|]. rewrite Hkeys. vm_compute. reflexivity.
Defined.

(** X11. The document that was loaded survives the two steps of
    [process_file]: although the pruner deletes the entry in place, it
    does so in the object that [expand_refs] created, so every object of
    the store before the steps is unchanged after them and the loaded
    document reads as the same document. *)
Theorem X11_process_keeps_loaded_document fuel doc (h : list Store.object) v h' :
  Store.process fuel doc h = Some (v, h') ->
  (forall l o, h !! l = Some o -> h' !! l = Some o)
  /\ (forall fuel' t, Store.reify fuel' h doc = Some t -> Store.reify fuel' h' doc = Some t).
Proof.
  intros Hrun. pose proof (process_frame _ _ _ _ _ Hrun) as Hkeep.
  split; [exact Hkeep|]. intros fuel' t. apply reify_frame, Hkeep.
Qed.

Lemma X11_process_keeps_loaded_document_witness :
  (Store.process 40 StoreSamples.pet_loaded.1 StoreSamples.pet_loaded.2 = Some pet_processed)
  /\ (Store.reify 40 pet_processed.2 StoreSamples.pet_loaded.1 = Some Samples.pet_doc)
  /\ (Store.reify 40 pet_processed.2 pet_processed.1
      = Some (JDict [("paths",
                      JDict [("/pets", JDict [("type", JStr "object");
                                               ("description", JStr "override")])])])).
Proof.
  assert (H : Store.process 40 StoreSamples.pet_loaded.1 StoreSamples.pet_loaded.2
              = Some pet_processed) by (vm_compute; reflexivity).
  split; [exact H|]. split; [|vm_compute; reflexivity].
  refine (proj2 (X11_process_keeps_loaded_document 40%nat _ _ pet_processed.1 pet_processed.2 H)
            40%nat _ _).
  vm_compute. reflexivity.
Defined.

(** ** The YAML string representer *)

Lemma pretty_N_go_length x :
  (0 < x)%N ->
  String.length (pretty_N_go x "") = S (String.length (pretty_N_go (x `div` 10)%N "")).
Proof.
  intros Hx. rewrite pretty_N_go_step, pretty_N_go_app by exact Hx.
  rewrite string_length_app. cbn. lia.
Qed.

Lemma pretty_N_long x : (1000 <= x)%N -> (4 <= String.length (pretty x))%nat.
Proof.
  intros Hx. unfold pretty, pretty_N. rewrite decide_False by lia.
  assert (H1 : (100 <= x `div` 10)%N) by (apply N.div_le_lower_bound; lia).
  assert (H2 : (10 <= (x `div` 10) `div` 10)%N) by (apply N.div_le_lower_bound; lia).
  assert (H3 : (1 <= ((x `div` 10) `div` 10) `div` 10)%N)
    by (apply N.div_le_lower_bound; lia).
  rewrite !pretty_N_go_length by lia. lia.
Qed.

Lemma str_representer_small :
  forallb (fun n => bool_decide (str_representer (pretty (N.of_nat n))
                                 = if (100 <=? n)%nat then Some PyStr.dquote else None))
          (seq 0 1000) = true.
Proof. vm_compute. reflexivity. Qed.

Lemma str_representer_N (x : N) :
  str_representer (pretty x) = if ((100 <=? x) && (x <=? 999))%N then Some PyStr.dquote else None.
Proof.
  destruct (N.leb_spec x 999) as [Hle|Hgt].
  - assert (Hin : In (N.to_nat x) (seq 0 1000)) by (apply in_seq; lia).
    pose proof (proj1 (forallb_forall _ _) str_representer_small (N.to_nat x) Hin) as Hsmall.
    cbv beta in Hsmall. rewrite N2Nat.id in Hsmall.
    apply bool_decide_eq_true in Hsmall. rewrite Hsmall.
    rewrite andb_true_r.
    destruct (Nat.leb_spec 100 (N.to_nat x)), (N.leb_spec 100 x); (reflexivity || lia).
  - rewrite andb_false_r. pose proof (pretty_N_long x ltac:(lia)) as Hlen.
    unfold str_representer. destruct (pretty x) as [|c s]; [cbn in Hlen; lia|].
    cbn [String.eqb]. destruct (Nat.eqb_spec (String.length (String c s)) 3); [lia|].
    reflexivity.
Qed.

(** X12. Status codes are quoted: the decimal form of an integer is given
    the double-quoted style exactly when the integer is between 100 and
    999, and the empty string is given it too. *)
Theorem X12_status_codes_quoted :
  (forall z : Z, str_representer (pretty z) = Some PyStr.dquote <-> 100 <= z <= 999)
  /\ str_representer "" = Some PyStr.dquote.
Proof.
  split; [|reflexivity]. intros [|q|q]; unfold pretty, pretty_Z.
  - split; [discriminate|lia].
  - change (pretty q) with (pretty (N.pos q)). rewrite str_representer_N.
    destruct (N.leb_spec 100 (N.pos q)), (N.leb_spec (N.pos q) 999); cbn [andb];
      split; try discriminate; try reflexivity; lia.
  - split; [|lia]. unfold str_representer.
    change ("-" +:+ ?s) with (String "-" s). cbn [String.eqb].
    unfold isdigit. cbn [String.eqb negb all_chars andb].
    change (is_digit "-") with false. cbn [andb]. rewrite andb_false_r. discriminate.
Qed.

(** ** New objects *)

Section store_fresh.
Import Store.

Lemma created_since_keep n (h h' : list object) v :
  (forall l o, h !! l = Some o -> h' !! l = Some o) ->
  created_since n h v -> created_since n h' v.
Proof.
  intros Hkeep. revert v. fix IH 2. intros v Hv. destruct Hv as [v Hs|l items Hn Hl Hall|l xs Hn Hl Hall].
  - apply created_scalar, Hs.
  - apply (created_dict n h' l items Hn (Hkeep _ _ Hl)).
    clear Hl. induction Hall as [|kv items Hkv _ IHall]; [constructor|].
    constructor; [exact (IH _ Hkv)|exact IHall].
  - apply (created_list n h' l xs Hn (Hkeep _ _ Hl)).
    clear Hl. induction Hall as [|x xs Hx _ IHall]; [constructor|].
    constructor; [exact (IH _ Hx)|exact IHall].
Qed.

Lemma created_since_mono n n' (h : list object) v :
  (n <= n')%nat -> created_since n' h v -> created_since n h v.
Proof.
  intros Hle. revert v. fix IH 2. intros v Hv. destruct Hv as [v Hs|l items Hn Hl Hall|l xs Hn Hl Hall].
  - apply created_scalar, Hs.
  - apply (created_dict n h l items ltac:(lia) Hl).
    clear Hl. induction Hall as [|kv items Hkv _ IHall]; [constructor|].
    constructor; [exact (IH _ Hkv)|exact IHall].
  - apply (created_list n h l xs ltac:(lia) Hl).
    clear Hl. induction Hall as [|x xs Hx _ IHall]; [constructor|].
    constructor; [exact (IH _ Hx)|exact IHall].
Qed.

Lemma unchanged_below_keep (h h' : list object) :
  unchanged_below (length h) h h' -> forall l o, h !! l = Some o -> h' !! l = Some o.
Proof.
  intros [_ Hsame] l o Hl. rewrite Hsame; [exact Hl|]. eapply lookup_lt_Some, Hl.
Qed.

Lemma created_since_alloc n (h : list object) o :
  (n <= length h)%nat ->
  match o with
  | ODict items => Forall (fun kv => created_since n h kv.2) items
  | OList xs => Forall (created_since n h) xs
  end ->
  created_since n (alloc o h).2 (alloc o h).1.
Proof.
  intros Hn Hall. cbn [alloc fst snd].
  assert (Hkeep : forall l o', h !! l = Some o' -> (h ++ [o]) !! l = Some o')
    by (intros l o' Hl; apply lookup_app_l_Some, Hl).
  assert (Hat : (h ++ [o]) !! length h = Some o) by apply list_lookup_middle, eq_refl.
  destruct o as [items|xs].
  - apply (created_dict _ _ _ items Hn Hat). eapply Forall_impl; [exact Hall|].
    intros kv. apply created_since_keep, Hkeep.
  - apply (created_list _ _ _ xs Hn Hat). eapply Forall_impl; [exact Hall|].
    intros x. apply created_since_keep, Hkeep.
Qed.

Lemma expand_items_fresh expand path items (h : list object) kvs h' n :
  expands_fresh expand ->
  expand_items expand path items h = Some (kvs, h') -> (n <= length h)%nat ->
  unchanged_below n h h' /\ Forall (fun kv => created_since n h' kv.2) kvs.
Proof.
  intros Hexpand. revert h kvs. induction items as [|[k v] items IH]; intros h kvs Hrun Hn.
  - injection Hrun as <- <-. split; [apply unchanged_below_refl|constructor].
  - cbn [expand_items] in Hrun.
    destruct (expand v (key_location path k) h) as [[v1 h1]|] eqn:Hv; [|discriminate].
    cbn in Hrun.
    destruct (expand_items expand path items h1) as [[kvs1 h2]|] eqn:Hrest; [|discriminate].
    injection Hrun as <- <-.
    destruct (Hexpand _ _ _ _ _ n Hv Hn) as [H1 Hv1].
    assert (Hn1 : (n <= length h1)%nat) by (destruct H1; lia).
    destruct (IH _ _ Hrest Hn1) as [H2 Hrest'].
    assert (Hall : unchanged_below (length h1) h1 h2).
    { eapply expand_items_frame; [|exact Hrest|apply le_n].
      intros v0 p0 h0 v0' h0' n0 Hv0 Hn0. apply (Hexpand _ _ _ _ _ n0 Hv0 Hn0). }
    split; [eapply unchanged_below_trans; eassumption|]. constructor; [|exact Hrest'].
    cbn. eapply created_since_keep; [apply unchanged_below_keep, Hall|exact Hv1].
Qed.

Lemma expand_elems_fresh expand path i xs (h : list object) vs h' n :
  expands_fresh expand ->
  expand_elems expand path i xs h = Some (vs, h') -> (n <= length h)%nat ->
  unchanged_below n h h' /\ Forall (created_since n h') vs.
Proof.
  intros Hexpand. revert i h vs. induction xs as [|x xs IH]; intros i h vs Hrun Hn.
  - injection Hrun as <- <-. split; [apply unchanged_below_refl|constructor].
  - cbn [expand_elems] in Hrun.
    destruct (expand x (index_location path i) h) as [[v1 h1]|] eqn:Hx; [|discriminate].
    cbn in Hrun.
    destruct (expand_elems expand path (S i) xs h1) as [[vs1 h2]|] eqn:Hrest; [|discriminate].
    injection Hrun as <- <-.
    destruct (Hexpand _ _ _ _ _ n Hx Hn) as [H1 Hv1].
    assert (Hn1 : (n <= length h1)%nat) by (destruct H1; lia).
    destruct (IH _ _ _ Hrest Hn1) as [H2 Hrest'].
    assert (Hall : unchanged_below (length h1) h1 h2).
    { eapply expand_elems_frame; [|exact Hrest|apply le_n].
      intros v0 p0 h0 v0' h0' n0 Hv0 Hn0. apply (Hexpand _ _ _ _ _ n0 Hv0 Hn0). }
    split; [eapply unchanged_below_trans; eassumption|]. constructor; [|exact Hrest'].
    eapply created_since_keep; [apply unchanged_below_keep, Hall|exact Hv1].
Qed.

Lemma new_placeholder_fresh description (h : list object) n :
  (n <= length h)%nat ->
  created_since n (new_placeholder description h).2 (new_placeholder description h).1.
Proof.
  intros Hn. unfold new_placeholder. apply created_since_alloc; [exact Hn|].
  repeat constructor; discriminate.
Qed.

Lemma expand_refs_fresh fuel root_doc depth visited_paths :
  expands_fresh (fun obj path h =>
                   Store.expand_refs fuel obj root_doc path depth visited_paths h).
Proof.
  revert depth visited_paths.
  induction fuel as [|fuel IH]; intros depth visited_paths obj path h v h' n Hrun Hn;
    [discriminate|].
  destruct (expand_refs_frame _ _ _ _ _ _ _ _ _ n Hrun Hn) as [Hframe _].
  split; [exact Hframe|]. clear Hframe.
  cbn [Store.expand_refs] in Hrun.
  assert (Hnew : forall description,
            Some (new_placeholder description h) = Some (v, h') -> created_since n h' v).
  { intros description [= <- <-]. apply new_placeholder_fresh, Hn. }
  destruct (MAX_DEPTH <? depth); [eapply Hnew, Hrun|].
  destruct obj as [| | | | |l];
    try (injection Hrun as <- <-; apply created_scalar; discriminate).
  destruct (h !! l) as [[items|xs]|]; [| |discriminate].
  - destruct (Dict.get "$ref" items) as [ref_value|].
    + destruct (reify fuel h ref_value) as [ref_path|]; [|discriminate]. cbn in Hrun.
      case_bool_decide; [eapply Hnew, Hrun|].
      destruct (Store.resolve_ref_pointer ref_value root_doc h) as [[resolved|e]|];
        [| |discriminate]; cbn in Hrun; [|eapply Hnew, Hrun].
      destruct (deepcopy fuel resolved ∅ h) as [[[copied memo] h1]|] eqn:Hcopy; [|discriminate].
      cbn in Hrun.
      destruct (merge_props copied (other_props items) (h1 ++ [ODict (other_props items)]))
        as [[merged h3]|] eqn:Hmerge; [|discriminate]. cbn in Hrun.
      pose proof (deepcopy_frame _ _ _ _ _ _ _ n Hcopy Hn) as H1.
      assert (Hn1 : (n <= length h1)%nat) by (destruct H1; lia).
      pose proof (unchanged_below_alloc n h1 (ODict (other_props items)) Hn1) as H2.
      cbn in H2.
      assert (Hn2 : (n <= length (h1 ++ [ODict (other_props items)]))%nat)
        by (destruct H2; lia).
      pose proof (merge_props_frame _ _ _ _ _ n Hmerge Hn2) as H3.
      assert (Hn3 : (n <= length h3)%nat) by (destruct H3; lia).
      apply (IH _ _ _ _ _ _ _ n Hrun Hn3).
    + destruct (expand_items _ path items h) as [[kvs h1]|] eqn:Hitems; [|discriminate].
      injection Hrun as <- <-.
      destruct (expand_items_fresh _ _ _ _ _ _ n (IH depth visited_paths) Hitems Hn)
        as [H1 Hkvs].
      apply created_since_alloc; [destruct H1; lia|].
      apply dict_of_items_Forall, Hkvs.
  - destruct (expand_elems _ path 0 xs h) as [[vs h1]|] eqn:Helems; [|discriminate].
    injection Hrun as <- <-.
    destruct (expand_elems_fresh _ _ _ _ _ _ _ n (IH depth visited_paths) Helems Hn)
      as [H1 Hvs].
    apply created_since_alloc; [destruct H1; lia|exact Hvs].
Qed.

End store_fresh.

(** X13. The expansion is a tree of new objects: every dict and every
    list of the value that [expand_refs] returns, at any depth, is an
    object created during the call, so the result shares no object with
    the document it was given. *)
Theorem X13_result_shares_nothing fuel obj root_doc path depth visited_paths
    (h : list Store.object) v h' :
  Store.expand_refs fuel obj root_doc path depth visited_paths h = Some (v, h') ->
  created_since (length h) h' v.
Proof.
  intros Hrun.
  apply (expand_refs_fresh fuel root_doc depth visited_paths obj path h v h'
           (length h) Hrun (le_n _)).
Qed.

Lemma X13_result_shares_nothing_witness :
  (Store.expand_refs 40 StoreSamples.pet_loaded.1 StoreSamples.pet_loaded.1 "root" 0 ∅
     StoreSamples.pet_loaded.2 = Some StoreSamples.pet_expanded)
  /\ created_since (length StoreSamples.pet_loaded.2) StoreSamples.pet_expanded.2
       StoreSamples.pet_expanded.1.
Proof.
  assert (H : Store.expand_refs 40 StoreSamples.pet_loaded.1 StoreSamples.pet_loaded.1 "root" 0 ∅
                StoreSamples.pet_loaded.2 = Some StoreSamples.pet_expanded)
    by (vm_compute; reflexivity).
  split; [exact H|].
  exact (X13_result_shares_nothing 40%nat _ _ _ _ _ _ StoreSamples.pet_expanded.1
           StoreSamples.pet_expanded.2 H).
Defined.
